(** * 2d-perspective: the drawing page of [src/pages/index.tsx]

    A shallow embedding of the [Home] component: its two pieces of React
    state, the render effect, the six event handlers and the two range
    sliders, followed by the properties of the page.

    JavaScript numbers are IEEE 754 binary64 values; they are modelled with
    the executable specification of the Standard Library ([SpecFloat]), so
    that [CANVAS_WIDTH / 2 + perspective[0]] and
    [Math.floor(Math.random() * CANVAS_WIDTH)] are computed with the
    rounding the engine performs. *)

From Stdlib Require Import ZArith List Bool Lia String.
From Stdlib Require Import Floats.SpecFloat.
Import ListNotations.

Local Open Scope Z_scope.

(** ** JavaScript numbers *)

Module JS.

Definition prec : Z := 53.
Definition emax : Z := 1024.

(** A JS [number]: a binary64 value (NaN, infinities, signed zeros and
    finite values [(-1)^s * m * 2^e]). *)
Definition number : Type := spec_float.

(** A numeric literal with an integer value, such as [800] or [2]. *)
Definition num (z : Z) : number := binary_normalize prec emax z 0 false.

Definition add : number -> number -> number := SFadd prec emax.
Definition sub : number -> number -> number := SFsub prec emax.
Definition mul : number -> number -> number := SFmul prec emax.
Definition div : number -> number -> number := SFdiv prec emax.

Definition leb : number -> number -> bool := SFleb.
Definition ltb : number -> number -> bool := SFltb.

(** [Math.floor]: NaN, the infinities and the zeros are returned as they
    are; a finite value with a non-negative exponent is an integer
    already; otherwise the mantissa is divided by [2^-e], rounding
    towards minus infinity ([Z.shiftr] floors). *)
Definition Math_floor (x : number) : number :=
  match x with
  | S754_finite s m e =>
      if 0 <=? e then x
      else num (Z.shiftr (cond_Zopp s (Zpos m)) (- e))
  | _ => x
  end.

(** The values [Math.random()] may return: a number with positive sign,
    greater than or equal to [+0] and strictly less than [1]. *)
Definition is_random (r : number) : bool :=
  match r with
  | S754_zero false => true
  | S754_finite false m e => bounded prec emax m e && ltb r (num 1)
  | _ => false
  end.

(** The numbers that are mathematical integers in [[lo, hi)]. *)
Definition integer_in (lo hi : Z) (x : number) : Prop :=
  exists z : Z, lo <= z < hi /\ x = num z.

End JS.

Arguments JS.num : simpl never.
Arguments JS.add : simpl never.
Arguments JS.sub : simpl never.
Arguments JS.mul : simpl never.
Arguments JS.div : simpl never.
Arguments JS.leb : simpl never.
Arguments JS.ltb : simpl never.
Arguments JS.Math_floor : simpl never.

Declare Scope js_scope.
Delimit Scope js_scope with js.
Infix "+" := JS.add : js_scope.
Infix "-" := JS.sub : js_scope.
Infix "*" := JS.mul : js_scope.
Infix "/" := JS.div : js_scope.


(** ** Data model of the page *)

Abbreviation number := JS.number.
Abbreviation num := JS.num.

(** [type Perspective = [number, number]], [type Stroke = [number, number]]
    and [type StrokeHistory = Stroke[]]. *)
Definition Perspective : Type := number * number.
Definition Stroke : Type := number * number.
Definition StrokeHistory : Type := list Stroke.

Definition CANVAS_WIDTH : number := num 800.
Definition CANVAS_HEIGHT : number := num 600.
Arguments CANVAS_WIDTH : simpl never.
Arguments CANVAS_HEIGHT : simpl never.

(** The index [name === "perspectiveX" ? 0 : 1], of type [0 | 1]. *)
Inductive Index : Type := I0 | I1.

(** [const a = [...prev]; a[index] = v; return a]. *)
Definition tuple_set (prev : Perspective) (index : Index) (v : number)
  : Perspective :=
  match index with
  | I0 => (v, snd prev)
  | I1 => (fst prev, v)
  end.

(** The two [useState] cells of [Home]. *)
Record State : Type := {
  perspective : Perspective;
  strokeHistory : StrokeHistory
}.

Definition initial : State :=
  {| perspective := (num 0, num 0); strokeHistory := [] |}.

(** ** The drawing surface *)

(** The calls the page makes on the 2D context. *)
Inductive DrawCmd : Type :=
| clearRect (x y w h : number)
| beginPath
| moveTo (x y : number)
| lineTo (x y : number)
| stroke.

(** [canvas.getBoundingClientRect()]: the fields the page reads. *)
Record DOMRect : Type := { left : number; top : number }.

(** The canvas element behind [canvasRef]: whether [getContext("2d")]
    returns a context or [null], and its bounding box. *)
Record HTMLCanvasElement : Type := {
  has_2d_context : bool;
  getBoundingClientRect : DOMRect
}.

(** [canvasRef.current], which is [null] while no canvas is mounted. *)
Definition CanvasRef : Type := option HTMLCanvasElement.

(** Both guards passed: [canvas] and [context] are non-null. *)
Definition context_ready (canvasRef : CanvasRef) : bool :=
  match canvasRef with
  | Some canvas => has_2d_context canvas
  | None => false
  end.

(** [const canvas = canvasRef.current; if (!canvas) return;
     const context = canvas.getContext("2d"); if (!context) return;]
    followed by the rest of the body. *)
Definition with_context {A : Type} (canvasRef : CanvasRef)
    (body : HTMLCanvasElement -> list A) : list A :=
  match canvasRef with
  | None => []
  | Some canvas => if has_2d_context canvas then body canvas else []
  end.

(** The anchor [(CANVAS_WIDTH / 2 + perspective[0],
    CANVAS_HEIGHT / 2 + perspective[1])]. *)
Definition anchor (p : Perspective) : number * number :=
  ((CANVAS_WIDTH / num 2 + fst p)%js, (CANVAS_HEIGHT / num 2 + snd p)%js).

(** [context.clearRect(0, 0, CANVAS_WIDTH, CANVAS_HEIGHT);
     context.beginPath(); context.moveTo(...)]. *)
Definition reset_path (p : Perspective) : list DrawCmd :=
  [clearRect (num 0) (num 0) CANVAS_WIDTH CANVAS_HEIGHT;
   beginPath;
   moveTo (fst (anchor p)) (snd (anchor p))].

(** [history.forEach((stroke) => { context.lineTo(stroke[0], stroke[1]);
     context.stroke(); })]. *)
Definition replay (history : StrokeHistory) : list DrawCmd :=
  flat_map (fun point => [lineTo (fst point) (snd point); stroke]) history.

(** The render effect, [useEffect(..., [perspective, strokeHistory])]. *)
Definition useEffect_render (canvasRef : CanvasRef) (st : State)
  : list DrawCmd :=
  with_context canvasRef (fun _ =>
    reset_path (perspective st) ++ replay (strokeHistory st)).

(** ** Event handlers *)

(** The argument of a state setter: a value or an updater of the pending
    state. *)
Inductive SetStateAction (S : Type) : Type :=
| SetValue (v : S)
| SetUpdater (f : S -> S).
Arguments SetValue {S} v.
Arguments SetUpdater {S} f.

Definition apply_action {S : Type} (a : SetStateAction S) (prev : S) : S :=
  match a with
  | SetValue v => v
  | SetUpdater f => f prev
  end.

(** What a handler does, in program order. [Download n] stands for the
    link with [download = `perspective-${n}.png`] and
    [href = canvas.toDataURL()] being clicked. *)
Inductive Effect : Type :=
| Draw (c : DrawCmd)
| SetPerspective (a : SetStateAction Perspective)
| SetStrokeHistory (a : SetStateAction StrokeHistory)
| Download (n : number).

(** [handlePerspectiveChange]: [name] and [value] are those of [e.target],
    [value] after [Number(value)]. *)
Definition handlePerspectiveChange (name : string) (value : number)
  : list Effect :=
  let index := if String.eqb name "perspectiveX" then I0 else I1 in
  [SetPerspective (SetUpdater (fun prev => tuple_set prev index value))].

(** [handleMouseDown]. *)
Definition handleMouseDown (canvasRef : CanvasRef) (clientX clientY : number)
  : list Effect :=
  with_context canvasRef (fun canvas =>
    let rect := getBoundingClientRect canvas in
    let x := (clientX - left rect)%js in
    let y := (clientY - top rect)%js in
    [Draw (lineTo x y); Draw stroke;
     SetStrokeHistory (SetUpdater (fun prev => prev ++ [(x, y)]))]).

(** [handleClearCanvas]; [p] is the [perspective] of the render the
    handler closes over. *)
Definition handleClearCanvas (canvasRef : CanvasRef) (p : Perspective)
  : list Effect :=
  with_context canvasRef (fun _ =>
    map Draw (reset_path p) ++ [SetStrokeHistory (SetValue [])]).

(** [handleUndoStroke]; [p] and [history] are the [perspective] and the
    [strokeHistory] of the render the handler closes over. On an empty
    array [pop()] returns [undefined] and changes nothing, as
    [removelast] does. *)
Definition handleUndoStroke (canvasRef : CanvasRef) (p : Perspective)
    (history : StrokeHistory) : list Effect :=
  with_context canvasRef (fun _ =>
    let newStrokeHistory := removelast history in
    map Draw (reset_path p)
    ++ [SetStrokeHistory (SetValue newStrokeHistory)]
    ++ map Draw (replay newStrokeHistory)).

(** [handleSaveImage]: only the canvas is tested, not its context; [r] is
    the value of [Math.random()]. *)
Definition handleSaveImage (canvasRef : CanvasRef) (r : number)
  : list Effect :=
  match canvasRef with
  | None => []
  | Some _ => [Download (JS.Math_floor (r * num 1000)%js)]
  end.

(** [handleDrawRandomly]; [rx] and [ry] are the values of the two calls of
    [Math.random()]. *)
Definition handleDrawRandomly (canvasRef : CanvasRef) (rx ry : number)
  : list Effect :=
  with_context canvasRef (fun _ =>
    let x := JS.Math_floor (rx * CANVAS_WIDTH)%js in
    let y := JS.Math_floor (ry * CANVAS_HEIGHT)%js in
    [Draw (lineTo x y); Draw stroke;
     SetStrokeHistory (SetUpdater (fun prev => prev ++ [(x, y)]))]).

(** ** One event of the page *)

(** The events the JSX wires to the handlers, with what the handler reads
    from the event or from [Math.random()]. *)
Inductive Event : Type :=
| Change (name : string) (value : number)
| MouseDown (clientX clientY : number)
| ClickUndo
| ClickRandom (rx ry : number)
| ClickSave (r : number)
| ClickClear.

(** The handler of an event, closed over the state [st] of the last
    render. *)
Definition handle (canvasRef : CanvasRef) (st : State) (ev : Event)
  : list Effect :=
  match ev with
  | Change name value => handlePerspectiveChange name value
  | MouseDown clientX clientY => handleMouseDown canvasRef clientX clientY
  | ClickUndo =>
      handleUndoStroke canvasRef (perspective st) (strokeHistory st)
  | ClickRandom rx ry => handleDrawRandomly canvasRef rx ry
  | ClickSave r => handleSaveImage canvasRef r
  | ClickClear => handleClearCanvas canvasRef (perspective st)
  end.

(** React applies the queued setter calls in order. *)
Definition commit1 (st : State) (fx : Effect) : State :=
  match fx with
  | SetPerspective a =>
      {| perspective := apply_action a (perspective st);
         strokeHistory := strokeHistory st |}
  | SetStrokeHistory a =>
      {| perspective := perspective st;
         strokeHistory := apply_action a (strokeHistory st) |}
  | Draw _ | Download _ => st
  end.

Definition commit (st : State) (fxs : list Effect) : State :=
  fold_left commit1 fxs st.

Definition draws (fxs : list Effect) : list DrawCmd :=
  flat_map (fun fx => match fx with Draw c => [c] | _ => [] end) fxs.

Definition downloads (fxs : list Effect) : list number :=
  flat_map (fun fx => match fx with Download n => [n] | _ => [] end) fxs.

(** Every setter call of the page passes a fresh array, so a dependency of
    the render effect changes exactly when a setter was called. *)
Definition sets_state (fxs : list Effect) : bool :=
  existsb (fun fx => match fx with
                     | SetPerspective _ | SetStrokeHistory _ => true
                     | Draw _ | Download _ => false
                     end) fxs.

(** The result of one event: the next state, the draw calls made by the
    handler followed by those of the render effect, and the downloads. *)
Record Outcome : Type := {
  next : State;
  drawn : list DrawCmd;
  saved : list number
}.

Definition step (canvasRef : CanvasRef) (st : State) (ev : Event) : Outcome :=
  let fxs := handle canvasRef st ev in
  let st' := commit st fxs in
  {| next := st';
     drawn := draws fxs
              ++ (if sets_state fxs then useEffect_render canvasRef st' else []);
     saved := downloads fxs |}.

(** A sequence of events, each handled after the render of the one
    before. *)
Definition run (canvasRef : CanvasRef) (st : State) (evs : list Event)
  : State :=
  fold_left (fun s ev => next (step canvasRef s ev)) evs st.


(** ** The 2D context *)

(** What the draw calls do to the surface: [pen] is the last point of the
    current path, [path] its line segments, [pixels] the segments stroked
    onto the bitmap since it was last cleared. *)
Definition Point : Type := number * number.
Definition Segment : Type := Point * Point.

Record Surface : Type := {
  pen : option Point;
  path : list Segment;
  pixels : list Segment
}.

(** The rectangle [(x, y, w, h)] contains the whole canvas. *)
Definition covers_canvas (x y w h : number) : bool :=
  JS.leb x (num 0) && JS.leb y (num 0)
  && JS.leb CANVAS_WIDTH (x + w)%js && JS.leb CANVAS_HEIGHT (y + h)%js.

(** [clearRect] erases the bitmap when the rectangle contains the canvas
    (a partial clear, which the page never asks for, keeps every segment as
    possibly visible); [beginPath] empties the path; [moveTo] moves the
    pen without drawing; [lineTo] adds the segment from the pen to the
    point and advances the pen (with no pen it only places it); [stroke]
    paints the whole current path. *)
Definition exec (s : Surface) (c : DrawCmd) : Surface :=
  match c with
  | clearRect x y w h =>
      {| pen := pen s; path := path s;
         pixels := if covers_canvas x y w h then [] else pixels s |}
  | beginPath => {| pen := None; path := []; pixels := pixels s |}
  | moveTo x y => {| pen := Some (x, y); path := path s; pixels := pixels s |}
  | lineTo x y =>
      match pen s with
      | None => {| pen := Some (x, y); path := path s; pixels := pixels s |}
      | Some from =>
          {| pen := Some (x, y); path := path s ++ [(from, (x, y))];
             pixels := pixels s |}
      end
  | stroke => {| pen := pen s; path := path s; pixels := pixels s ++ path s |}
  end.

Definition paint (s : Surface) (cmds : list DrawCmd) : Surface :=
  fold_left exec cmds s.

(** The segments of the polyline that starts at [from] and visits [pts] in
    order. *)
Fixpoint polyline (from : Point) (pts : list Point) : list Segment :=
  match pts with
  | [] => []
  | pt :: rest => (from, pt) :: polyline pt rest
  end.

(** ** The range sliders *)

(** [<input type="range" name=... min=... max=...>], with the default step
    of one. *)
Record RangeInput : Type := {
  input_name : string;
  input_min : Z;
  input_max : Z
}.

Definition perspectiveX_input : RangeInput :=
  {| input_name := "perspectiveX"; input_min := -200; input_max := 200 |}.

Definition perspectiveY_input : RangeInput :=
  {| input_name := "perspectiveY"; input_min := -200; input_max := 200 |}.

Definition rendered_inputs : list RangeInput :=
  [perspectiveX_input; perspectiveY_input].

(** Modelled from the spec: the range control of the platform is not part
    of the repository; the spec says its value is "already range-clamped by
    the slider's own min/max of -200..200". A requested position is clamped
    into [[min, max]] before the change event carries it. *)
Definition slider_value (input : RangeInput) (position : Z) : Z :=
  Z.max (input_min input) (Z.min (input_max input) position).

(** What a user can do on the page. *)
Inductive UserAction : Type :=
| Slide (input : RangeInput) (position : Z)
| Fire (ev : Event).

(** Sliders are those of the JSX; the other events are free, except that
    no change event arrives without a slider. *)
Definition allowed (a : UserAction) : Prop :=
  match a with
  | Slide input _ => In input rendered_inputs
  | Fire (Change _ _) => False
  | Fire _ => True
  end.

Definition event_of (a : UserAction) : Event :=
  match a with
  | Slide input position =>
      Change (input_name input) (num (slider_value input position))
  | Fire ev => ev
  end.

(** The states of the page: the initial one and those an allowed action
    leads to, whatever the canvas reference is at that time. *)
Inductive reachable : State -> Prop :=
| reachable_initial : reachable initial
| reachable_step (st : State) (canvasRef : CanvasRef) (a : UserAction) :
    reachable st -> allowed a ->
    reachable (next (step canvasRef st (event_of a))).

(** [lo <= x && x <= hi] with the comparisons of JavaScript. *)
Definition within (lo hi : Z) (x : number) : bool :=
  JS.leb (num lo) x && JS.leb x (num hi).

(** [lo <= x && x < hi] with the comparisons of JavaScript. *)
Definition below (lo hi : Z) (x : number) : bool :=
  JS.leb (num lo) x && JS.ltb x (num hi).

(** The two ways of adding a point. *)
Inductive AddPoint : Type :=
| Pointer (clientX clientY : number)
| Random (rx ry : number).

Definition add_event (a : AddPoint) : Event :=
  match a with
  | Pointer clientX clientY => MouseDown clientX clientY
  | Random rx ry => ClickRandom rx ry
  end.

(** The point an Add-Point operation computes. *)
Definition added_point (canvas : HTMLCanvasElement) (a : AddPoint) : Stroke :=
  match a with
  | Pointer clientX clientY =>
      ((clientX - left (getBoundingClientRect canvas))%js,
       (clientY - top (getBoundingClientRect canvas))%js)
  | Random rx ry =>
      (JS.Math_floor (rx * CANVAS_WIDTH)%js,
       JS.Math_floor (ry * CANVAS_HEIGHT)%js)
  end.

(** ** Auxiliary definitions of the properties *)

(** A canvas with a 2D context whose bounding box starts at the origin of
    the viewport. *)
Definition canvas_at_origin : HTMLCanvasElement :=
  {| has_2d_context := true;
     getBoundingClientRect := {| left := num 0; top := num 0 |} |}.

(** The largest binary64 value below one. *)
Definition below_one : number := S754_finite false 9007199254740991 (-53).

(** Both components of the offset are integers between -200 and 200. *)
Definition offset_ok (p : Perspective) : Prop :=
  JS.integer_in (-200) 201 (fst p) /\ JS.integer_in (-200) 201 (snd p).

(** After [k] right shifts of [m0] the record of [SpecFloat.shr] holds
    [m0 / 2^k], and its round bit is set only when the discarded part is at
    least one half. *)
Definition shifted (m0 k : Z) (r : shr_record) : Prop :=
  shr_m r = m0 / 2 ^ k /\
  (shr_r r = true -> 2 ^ k <= 2 * (m0 mod 2 ^ k)).

(** ** The page over a run of events *)

(** The surface while events are handled: the draw calls of an event are
    painted on the surface the event before left. *)
Definition step_surface (canvasRef : CanvasRef) (cfg : State * Surface)
    (ev : Event) : State * Surface :=
  let out := step canvasRef (fst cfg) ev in
  (next out, paint (snd cfg) (drawn out)).

Definition run_surface (canvasRef : CanvasRef) (cfg : State * Surface)
    (evs : list Event) : State * Surface :=
  fold_left (step_surface canvasRef) evs cfg.

(** The first render: the effect runs once on the initial state. *)
Definition mount (canvasRef : CanvasRef) (blank : Surface) : State * Surface :=
  (initial, paint blank (useEffect_render canvasRef initial)).

(** The events that call [setPerspective]. *)
Definition is_change (ev : Event) : bool :=
  match ev with
  | Change _ _ => true
  | _ => false
  end.

(** The events whose handler never calls [setStrokeHistory]. *)
Definition keeps_history (ev : Event) : bool :=
  match ev with
  | Change _ _ | ClickSave _ => true
  | _ => false
  end.

(** The events whose handler appends a point. *)
Definition is_add (ev : Event) : bool :=
  match ev with
  | MouseDown _ _ | ClickRandom _ _ => true
  | _ => false
  end.

(** A point with integer coordinates inside the canvas. *)
Definition in_canvas (point : Stroke) : Prop :=
  JS.integer_in 0 800 (fst point) /\ JS.integer_in 0 600 (snd point).

(** No pointer press, and random draws that [Math.random()] may return. *)
Definition random_only (ev : Event) : Prop :=
  match ev with
  | MouseDown _ _ => False
  | ClickRandom rx ry => JS.is_random rx = true /\ JS.is_random ry = true
  | _ => True
  end.

(** Equality of two binary64 values, field by field. *)
Definition number_eqb (x y : number) : bool :=
  match x, y with
  | S754_zero a, S754_zero b => Bool.eqb a b
  | S754_infinity a, S754_infinity b => Bool.eqb a b
  | S754_nan, S754_nan => true
  | S754_finite a m e, S754_finite b m' e' =>
      Bool.eqb a b && Pos.eqb m m' && Z.eqb e e'
  | _, _ => false
  end.

(** * Properties *)

Ltac unfold_handlers :=
  unfold step, handle, handlePerspectiveChange, handleMouseDown,
    handleClearCanvas, handleUndoStroke, handleSaveImage, handleDrawRandomly.

(** ** Rounding lemmas for binary64 products *)

Section Shr.

Lemma shr_1_nonneg (m : Z) (r s : bool) :
  0 <= m ->
  shr_1 (Build_shr_record m r s) = Build_shr_record (m / 2) (Z.odd m) (r || s).
Proof.
  intros Hm. destruct m as [|p|p]; [reflexivity| |lia].
  destruct p as [p|p|]; cbn [shr_1 Z.odd].
  - replace (Zpos p~1 / 2) with (Zpos p); [reflexivity|].
    apply Z.div_unique with 1; lia.
  - replace (Zpos p~0 / 2) with (Zpos p); [reflexivity|].
    apply Z.div_unique with 0; lia.
  - reflexivity.
Qed.

Lemma shifted_step (m0 k : Z) (r : shr_record) :
  0 <= m0 -> 0 <= k -> shifted m0 k r -> shifted m0 (k + 1) (shr_1 r).
Proof.
  intros Hm Hk [Hq _]. destruct r as [m r s]. cbn [shr_m] in Hq.
  assert (Hp : 0 < 2 ^ k) by (apply Z.pow_pos_nonneg; lia).
  assert (Hm' : 0 <= m) by (subst m; apply Z.div_pos; lia).
  rewrite (shr_1_nonneg _ _ _ Hm'). unfold shifted. cbn [shr_m shr_r].
  rewrite Z.pow_add_r, Z.pow_1_r by lia. split.
  - subst m. rewrite Z.div_div by lia. reflexivity.
  - intros Hodd. rewrite Z.rem_mul_r by lia. rewrite <- Hq.
    rewrite Zmod_odd, Hodd.
    pose proof (Z.mod_pos_bound m0 (2 ^ k) Hp). lia.
Qed.

Lemma shifted_iter (p : positive) :
  forall (m0 k : Z) (r : shr_record),
    0 <= m0 -> 0 <= k -> shifted m0 k r ->
    shifted m0 (k + Zpos p) (iter_pos shr_1 p r).
Proof.
  induction p as [p IH|p IH|]; intros m0 k r Hm Hk Hr; cbn [iter_pos].
  - replace (k + Zpos p~1) with (((k + 1) + Zpos p) + Zpos p) by lia.
    apply IH; [lia|lia|]. apply IH; [lia|lia|]. now apply shifted_step.
  - replace (k + Zpos p~0) with ((k + Zpos p) + Zpos p) by lia.
    apply IH; [lia|lia|]. now apply IH.
  - now apply shifted_step.
Qed.

Lemma shr_exact (m e n : Z) :
  0 <= m ->
  shifted m (Z.max 0 n) (fst (shr (Build_shr_record m false false) e n)) /\
  snd (shr (Build_shr_record m false false) e n) = e + Z.max 0 n.
Proof.
  intros Hm.
  assert (H0 : shifted m 0 (Build_shr_record m false false)).
  { split; cbn [shr_m shr_r]; [now rewrite Z.pow_0_r, Z.div_1_r|discriminate]. }
  destruct n as [|p|p]; cbn [shr fst snd].
  - split; [exact H0|lia].
  - split; [|lia]. replace (Z.max 0 (Zpos p)) with (0 + Zpos p) by lia.
    apply shifted_iter; [lia|lia|exact H0].
  - split; [exact H0|lia].
Qed.

Lemma round_nearest_even_shr (r : shr_record) :
  round_nearest_even (shr_m r) (loc_of_shr_record r) = shr_m r \/
  (shr_r r = true /\
   round_nearest_even (shr_m r) (loc_of_shr_record r) = shr_m r + 1).
Proof.
  destruct r as [m [|] [|]]; cbn; auto.
  destruct (Z.even m); auto.
Qed.

Lemma digits2_pos_bounds (p : positive) :
  2 ^ (Zpos (digits2_pos p) - 1) <= Zpos p < 2 ^ Zpos (digits2_pos p).
Proof.
  induction p as [p IH|p IH|]; cbn [digits2_pos].
  - rewrite Pos2Z.inj_succ, Z.pow_succ_r by lia.
    replace (Z.succ (Zpos (digits2_pos p)) - 1)
      with (Z.succ (Zpos (digits2_pos p) - 1)) by lia.
    rewrite Z.pow_succ_r by lia. lia.
  - rewrite Pos2Z.inj_succ, Z.pow_succ_r by lia.
    replace (Z.succ (Zpos (digits2_pos p)) - 1)
      with (Z.succ (Zpos (digits2_pos p) - 1)) by lia.
    rewrite Z.pow_succ_r by lia. lia.
  - cbn. lia.
Qed.

Lemma Zdigits2_bounds (m : Z) :
  0 < m -> 2 ^ (Zdigits2 m - 1) <= m < 2 ^ Zdigits2 m.
Proof.
  destruct m as [|p|p]; try lia. intros _. apply digits2_pos_bounds.
Qed.

Lemma Zdigits2_le (m k : Z) : 0 <= k -> 0 <= m < 2 ^ k -> Zdigits2 m <= k.
Proof.
  intros Hk [H0 Hm]. destruct (Z.eq_dec m 0) as [->|Hne]; [cbn; lia|].
  pose proof (Zdigits2_bounds m ltac:(lia)) as [Hlo _].
  destruct (Z_le_gt_dec (Zdigits2 m) k) as [|Hgt]; [assumption|exfalso].
  assert (2 ^ k <= 2 ^ (Zdigits2 m - 1)) by (apply Z.pow_le_mono_r; lia).
  lia.
Qed.

Lemma Zdigits2_ge (m k : Z) : 0 <= k -> 2 ^ k <= m -> k + 1 <= Zdigits2 m.
Proof.
  intros Hk Hm.
  assert (0 < 2 ^ k) by (apply Z.pow_pos_nonneg; lia).
  pose proof (Zdigits2_bounds m ltac:(lia)) as [_ Hhi].
  destruct (Z_le_gt_dec (k + 1) (Zdigits2 m)) as [|Hgt]; [assumption|exfalso].
  assert (2 ^ Zdigits2 m <= 2 ^ k) by (apply Z.pow_le_mono_r; lia).
  lia.
Qed.

End Shr.


Section RandomProduct.

Lemma num_1 : JS.num 1 = S754_finite false 4503599627370496 (-52).
Proof. vm_compute. reflexivity. Qed.

(** A finite value that [Math.random()] may return has exponent at most
    [-53]; it is subnormal or its mantissa has [53] bits. *)
Lemma is_random_finite (m : positive) (e : Z) :
  bounded JS.prec JS.emax m e = true ->
  JS.ltb (S754_finite false m e) (JS.num 1) = true ->
  -1074 <= e <= -53 /\ Zpos m < 2 ^ 53 /\ (e = -1074 \/ 2 ^ 52 <= Zpos m).
Proof.
  unfold bounded, canonical_mantissa, fexp, emin, JS.prec, JS.emax.
  intros Hb Hlt. apply andb_prop in Hb as [Hcan _].
  apply Z.eqb_eq in Hcan.
  pose proof (digits2_pos_bounds m) as [Hlo Hhi].
  set (d := Zpos (digits2_pos m)) in *.
  assert (Hd : 0 < d) by (unfold d; lia).
  assert (Hd53 : d <= 53) by lia.
  assert (Hm : Zpos m < 2 ^ 53).
  { assert (2 ^ d <= 2 ^ 53) by (apply Z.pow_le_mono_r; lia). lia. }
  assert (Hnorm : e = -1074 \/ 2 ^ 52 <= Zpos m).
  { destruct (Z.eq_dec e (-1074)) as [|Hne]; [now left|right].
    replace d with 53 in Hlo by lia. exact Hlo. }
  rewrite num_1 in Hlt. unfold JS.ltb, SFltb, SFcompare in Hlt.
  destruct (Z.compare_spec e (-52)) as [He|He|He].
  - destruct (Pos.compare_cont Eq m 4503599627370496) eqn:Hc;
      try discriminate Hlt.
    assert (Hc' : Zpos m < 4503599627370496) by exact Hc. clear Hc.
    change (2 ^ 52) with 4503599627370496 in Hnorm. lia.
  - lia.
  - discriminate Hlt.
Qed.

Variable c : Z.
Variable mc : positive.
Hypothesis c_range : 512 < c < 1024.
Hypothesis mc_eq : Zpos mc = c * 2 ^ 43.

(** The product of a random draw with a dimension [c] between [512] and
    [1024], rounded to binary64 and floored, is an integer below [c]: the
    rounding never reaches [c]. *)
Lemma floor_mul_finite (m : positive) (e : Z) :
  bounded JS.prec JS.emax m e = true ->
  JS.ltb (S754_finite false m e) (JS.num 1) = true ->
  JS.integer_in 0 c
    (JS.Math_floor
       (JS.mul (S754_finite false m e) (S754_finite false mc (-43)))).
Proof.
  intros Hb Hlt.
  destruct (is_random_finite m e Hb Hlt) as (He & Hm & Hnorm).
  unfold JS.mul, SFmul, binary_round_aux, shr_fexp. cbn [xorb].
  rewrite Pos2Z.inj_mul, mc_eq.
  set (P := Zpos m * (c * 2 ^ 43)).
  assert (HP0 : 0 < P) by (unfold P; lia).
  replace (e + -43) with (e - 43) by lia.
  set (n := fexp JS.prec JS.emax (Zdigits2 P + (e - 43)) - (e - 43)).
  (* the first shift is by [j + 43] bits with [0 <= j <= 10] *)
  assert (Hn : 43 <= n <= 53).
  { assert (Hd : Zdigits2 P <= 106).
    { apply Zdigits2_le; [lia|]. split; [lia|].
      change (2 ^ 106) with (2 ^ 53 * (1024 * 2 ^ 43)). unfold P. nia. }
    assert (Hd' : e = -1074 \/ 105 <= Zdigits2 P).
    { destruct Hnorm as [|Hn]; [now left|right].
      apply (Zdigits2_ge P 104); [lia|].
      change (2 ^ 104) with (2 ^ 52 * (512 * 2 ^ 43)). unfold P. nia. }
    unfold n, fexp, emin, JS.prec, JS.emax. lia. }
  cbn [shr_record_of_loc].
  pose proof (shr_exact P (e - 43) n ltac:(lia)) as [[Hm1 Hr1] He1].
  destruct (shr (Build_shr_record P false false) (e - 43) n) as [r1 e1].
  cbn [fst snd] in Hm1, Hr1, He1.
  replace (Z.max 0 n) with ((n - 43) + 43) in Hm1, Hr1, He1 by lia.
  set (j := n - 43) in *.
  assert (Hj : 0 <= j <= 10) by (unfold j; lia).
  assert (HB : 1 <= 2 ^ j <= 1024).
  { split.
    - change 1 with (2 ^ 0). apply Z.pow_le_mono_r; lia.
    - change 1024 with (2 ^ 10). apply Z.pow_le_mono_r; lia. }
  set (B := 2 ^ j) in *.
  rewrite Z.pow_add_r in Hm1, Hr1 by lia. fold B in Hm1, Hr1.
  unfold P in Hm1, Hr1. rewrite Z.mul_assoc in Hm1, Hr1.
  rewrite Z.div_mul_cancel_r in Hm1 by lia.
  rewrite Z.mul_mod_distr_r in Hr1 by lia.
  set (A := Zpos m * c) in *.
  (* the rounded mantissa stays below [c * 2^(-e-j)] *)
  set (Q := 2 ^ (- e - j)).
  assert (HQ : 2 ^ 43 <= Q).
  { apply Z.pow_le_mono_r; lia. }
  assert (HmQ : Zpos m < Q * B).
  { unfold Q, B. rewrite <- Z.pow_add_r by lia.
    replace (- e - j + j) with (- e) by lia.
    assert (2 ^ 53 <= 2 ^ (- e)) by (apply Z.pow_le_mono_r; lia). lia. }
  set (m2 := round_nearest_even (shr_m r1) (loc_of_shr_record r1)).
  assert (Hm2 : 0 <= m2 < c * Q).
  { pose proof (Z.div_mod A B ltac:(lia)) as Hdm.
    pose proof (Z.mod_pos_bound A B ltac:(lia)) as Hmod.
    assert (HA : 0 <= A <= c * (Q * B) - c) by (unfold A; nia).
    assert (Hq : 0 <= A / B) by (apply Z.div_pos; lia).
    assert (Hq' : A / B < c * Q).
    { apply Z.div_lt_upper_bound; [lia|]. nia. }
    destruct (round_nearest_even_shr r1) as [Heq|[Hr Heq]];
      unfold m2; rewrite Heq, Hm1; [lia|].
    specialize (Hr1 Hr). split; [lia|].
    assert (2 ^ 43 * B <= 2 * (A mod B) * 2 ^ 43) by lia.
    assert (B <= 2 * (A mod B)) by nia.
    nia. }
  clearbody m2.
  (* the second shift, after rounding *)
  set (n2 := fexp JS.prec JS.emax (Zdigits2 m2 + e1) - e1).
  pose proof (shr_exact m2 e1 n2 ltac:(lia)) as [[Hm3 _] He2].
  destruct (shr (Build_shr_record m2 false false) e1 n2) as [r2 e2].
  cbn [fst snd] in Hm3, He2.
  set (K := - e - j) in *.
  assert (He1K : e1 = - K) by (unfold K, j; lia).
  assert (Ht : 0 <= Z.max 0 n2 <= K - 43).
  { assert (Hd2 : Zdigits2 m2 <= K + 10).
    { apply Zdigits2_le; [unfold K; lia|]. split; [lia|].
      rewrite Z.pow_add_r by (unfold K; lia). fold Q.
      change (2 ^ 10) with 1024. nia. }
    unfold n2, fexp, emin, JS.prec, JS.emax, K in *. lia. }
  set (t := Z.max 0 n2) in *.
  assert (Hpt : 0 < 2 ^ t) by (apply Z.pow_pos_nonneg; lia).
  assert (Hm3' : 0 <= shr_m r2) by (rewrite Hm3; apply Z.div_pos; lia).
  destruct (shr_m r2) as [|q|q] eqn:Eq3; [| |lia].
  - exists 0. split; [lia|reflexivity].
  - replace (e2 <=? JS.emax - JS.prec) with true
      by (symmetry; apply Z.leb_le; unfold JS.emax, JS.prec; lia).
    unfold JS.Math_floor.
    replace (0 <=? e2) with false by (symmetry; apply Z.leb_gt; lia).
    cbn [cond_Zopp]. rewrite Z.shiftr_div_pow2 by lia.
    exists (Zpos q / 2 ^ (- e2)). split; [|reflexivity].
    rewrite Hm3, Z.div_div by (try apply Z.pow_pos_nonneg; lia).
    rewrite <- Z.pow_add_r by lia.
    replace (t + - e2) with K by lia. fold Q.
    split; [apply Z.div_pos; lia|].
    apply Z.div_lt_upper_bound; lia.
Qed.

(** The same for every value [Math.random()] may return. *)
Lemma floor_mul_random (r : JS.number) :
  JS.is_random r = true ->
  JS.integer_in 0 c
    (JS.Math_floor (JS.mul r (S754_finite false mc (-43)))).
Proof.
  destruct r as [[|]|s| |[|] m e]; cbn [JS.is_random]; try discriminate.
  - intros _. exists 0. split; [lia|reflexivity].
  - intros H. apply andb_prop in H as [Hb Hlt].
    now apply floor_mul_finite.
Qed.

End RandomProduct.

(** ** The arithmetic of the page on sample values *)

Example anchor_at_offset : anchor (num 10, num (-5)) = (num 410, num 295).
Proof. vm_compute. reflexivity. Qed.

Example floor_of_half_width :
  JS.Math_floor (num 1 / num 2 * CANVAS_WIDTH)%js = num 400.
Proof. vm_compute. reflexivity. Qed.

Example floor_rounds_down :
  JS.Math_floor (num (-1) / num 2)%js = num (-1)
  /\ JS.Math_floor (num 7 / num 2)%js = num 3.
Proof. split; vm_compute; reflexivity. Qed.

Example one_is_not_random : JS.is_random (num 1) = false.
Proof. vm_compute. reflexivity. Qed.

(** ** Guards, queued updates and draw calls *)

Lemma context_ready_inv (canvasRef : CanvasRef) :
  context_ready canvasRef = true ->
  exists canvas, canvasRef = Some canvas /\ has_2d_context canvas = true.
Proof.
  destruct canvasRef as [canvas|]; cbn; [|discriminate].
  intros H. now exists canvas.
Qed.

Lemma with_context_ready {A : Type} (canvas : HTMLCanvasElement)
    (body : HTMLCanvasElement -> list A) :
  has_2d_context canvas = true ->
  with_context (Some canvas) body = body canvas.
Proof. intros H. cbn. now rewrite H. Qed.

Lemma with_context_missing {A : Type} (canvasRef : CanvasRef)
    (body : HTMLCanvasElement -> list A) :
  context_ready canvasRef = false -> with_context canvasRef body = [].
Proof.
  destruct canvasRef as [canvas|]; cbn; [|reflexivity].
  now intros ->.
Qed.

Lemma commit_app (st : State) (l1 l2 : list Effect) :
  commit st (l1 ++ l2) = commit (commit st l1) l2.
Proof. apply fold_left_app. Qed.

Lemma commit_draws (st : State) (cmds : list DrawCmd) :
  commit st (map Draw cmds) = st.
Proof.
  induction cmds as [|c cmds IH]; [reflexivity|exact IH].
Qed.

Lemma draws_app (l1 l2 : list Effect) :
  draws (l1 ++ l2) = draws l1 ++ draws l2.
Proof. apply flat_map_app. Qed.

Lemma draws_map_Draw (cmds : list DrawCmd) : draws (map Draw cmds) = cmds.
Proof.
  induction cmds as [|c cmds IH]; [reflexivity|].
  cbn. unfold draws in IH. now rewrite IH.
Qed.

(** ** Painting a replayed history *)

Lemma covers_canvas_whole :
  covers_canvas (num 0) (num 0) CANVAS_WIDTH CANVAS_HEIGHT = true.
Proof. vm_compute. reflexivity. Qed.

Lemma last_cons {A : Type} (l : list A) :
  forall a d : A, last (a :: l) d = last l a.
Proof.
  induction l as [|b l IH]; intros a d; [reflexivity|].
  change (last (a :: b :: l) d) with (last (b :: l) d).
  now rewrite !IH.
Qed.

(** What the strokes of a replay paint: after each [lineTo] the whole path
    built so far. *)
Lemma paint_replay (history : StrokeHistory) :
  forall (from : Point) (built painted : list Segment),
    let after :=
      paint {| pen := Some from; path := built; pixels := painted |}
            (replay history) in
    pen after = Some (last history from)
    /\ path after = built ++ polyline from history
    /\ forall seg,
         In seg (pixels after) <->
         In seg painted
         \/ (history <> [] /\ In seg built)
         \/ In seg (polyline from history).
Proof.
  induction history as [|pt rest IH]; intros from built painted.
  - cbn. rewrite app_nil_r. split; [reflexivity|split; [reflexivity|]].
    intros seg. split; [auto|]. intros [H|[[H _]|[]]]; [exact H|].
    now contradiction H.
  - destruct pt as [x y].
    specialize (IH (x, y) (built ++ [(from, (x, y))])
                  (painted ++ built ++ [(from, (x, y))])).
    cbn zeta in IH. destruct IH as (Hpen & Hpath & Hpix).
    unfold paint in *.
    cbn [replay flat_map app fold_left exec pen path pixels fst snd].
    fold (replay rest). split; [|split].
    + etransitivity; [exact Hpen|]. now rewrite last_cons.
    + etransitivity; [exact Hpath|]. rewrite <- app_assoc. reflexivity.
    + intros seg. apply (iff_trans (Hpix seg)). cbn [polyline In].
      rewrite !in_app_iff. cbn [In]. split.
      * intros [[H|[H|[H|[]]]]|[[_ [H|[H|[]]]]|H]]; auto.
        right. left. split; [discriminate|exact H].
        right. left. split; [discriminate|exact H].
      * intros [H|[[_ H]|[H|H]]]; auto.
Qed.

(** ** The render effect *)

Lemma paint_reset_path (before : Surface) (p : Perspective) :
  paint before (reset_path p)
  = {| pen := Some (anchor p); path := []; pixels := [] |}.
Proof.
  unfold paint, reset_path, anchor.
  cbn [fold_left exec pen path pixels fst snd].
  now rewrite covers_canvas_whole.
Qed.

(** C1: with the canvas and its context present, the render effect issues,
    for every offset and every stroke history, the same fixed sequence of
    calls: clear the whole canvas, begin a path, move the pen to
    (CANVAS_WIDTH / 2 + offset.x, CANVAS_HEIGHT / 2 + offset.y), then one
    lineTo (and its stroke) per point of the history, in insertion order.
    Painted on any surface, they leave the pen on the last point and
    exactly the segments of the polyline anchor, p1, ..., pn, each drawn
    from the pen position left by the one before. For the offset (10, -5)
    and the history [(50,50),(100,120)] the calls are
    moveTo(410, 295), lineTo(50, 50), lineTo(100, 120). *)
Theorem render_effect_path :
  (forall (canvasRef : CanvasRef) (st : State),
      context_ready canvasRef = true ->
      useEffect_render canvasRef st
      = clearRect (num 0) (num 0) CANVAS_WIDTH CANVAS_HEIGHT
        :: beginPath
        :: moveTo (CANVAS_WIDTH / num 2 + fst (perspective st))%js
                  (CANVAS_HEIGHT / num 2 + snd (perspective st))%js
        :: flat_map (fun pt => [lineTo (fst pt) (snd pt); stroke])
                    (strokeHistory st)
      /\ forall before : Surface,
           let start := anchor (perspective st) in
           let after := paint before (useEffect_render canvasRef st) in
           pen after = Some (last (strokeHistory st) start)
           /\ path after = polyline start (strokeHistory st)
           /\ forall seg : Segment,
                In seg (pixels after)
                <-> In seg (polyline start (strokeHistory st)))
  /\ useEffect_render (Some canvas_at_origin)
       {| perspective := (num 10, num (-5));
          strokeHistory := [(num 50, num 50); (num 100, num 120)] |}
     = [clearRect (num 0) (num 0) (num 800) (num 600);
        beginPath;
        moveTo (num 410) (num 295);
        lineTo (num 50) (num 50); stroke;
        lineTo (num 100) (num 120); stroke].
Proof.
  split; [|vm_compute; reflexivity].
  intros canvasRef st Hm.
  destruct (context_ready_inv canvasRef Hm) as (canvas & -> & Hctx).
  unfold useEffect_render. rewrite with_context_ready by exact Hctx.
  split; [reflexivity|].
  intros before. set (start := anchor (perspective st)).
  unfold paint. rewrite fold_left_app.
  fold (paint before (reset_path (perspective st))).
  rewrite paint_reset_path. fold start.
  destruct (paint_replay (strokeHistory st) start [] [])
    as (Hpen & Hpath & Hpix).
  split; [exact Hpen|]. split; [exact Hpath|].
  intros seg. apply (iff_trans (Hpix seg)). cbn [In].
  split; [intros [[]|[[_ []]|H]]; exact H|auto].
Qed.

Lemma render_effect_path_witness :
  context_ready (Some canvas_at_origin) = true
  /\ useEffect_render (Some canvas_at_origin) initial
     = [clearRect (num 0) (num 0) CANVAS_WIDTH CANVAS_HEIGHT;
        beginPath;
        moveTo (CANVAS_WIDTH / num 2 + num 0)%js
               (CANVAS_HEIGHT / num 2 + num 0)%js].
Proof.
  split; [reflexivity|].
  exact (proj1 (proj1 render_effect_path (Some canvas_at_origin) initial
                  eq_refl)).
Defined.

(** ** Undo, clear and the offset sliders *)

Lemma step_undo (canvas : HTMLCanvasElement) (st : State) :
  has_2d_context canvas = true ->
  next (step (Some canvas) st ClickUndo)
  = {| perspective := perspective st;
       strokeHistory := removelast (strokeHistory st) |}.
Proof.
  intros Hctx. unfold step, handle, handleUndoStroke. cbn [next].
  rewrite with_context_ready by exact Hctx.
  rewrite !commit_app, !commit_draws. reflexivity.
Qed.

(** C2: with the canvas and its context present, Undo-Last-Stroke leaves
    the offset alone and replaces the history by the history without its
    last element: a history of length N >= 1 becomes one of length N - 1
    and is the new history followed by the point that was added last; an
    empty history stays empty. After adding (50,50) and (100,120) to the
    empty history, undo leaves [(50,50)]. *)
Theorem undo_removes_last :
  (forall (canvasRef : CanvasRef) (st : State),
      context_ready canvasRef = true ->
      let st' := next (step canvasRef st ClickUndo) in
      perspective st' = perspective st
      /\ strokeHistory st' = removelast (strokeHistory st)
      /\ (strokeHistory st = [] -> st' = st)
      /\ forall (older : StrokeHistory) (latest : Stroke),
           strokeHistory st = older ++ [latest] ->
           strokeHistory st' = older
           /\ List.length (strokeHistory st')
              = (List.length (strokeHistory st) - 1)%nat)
  /\ strokeHistory
       (run (Some canvas_at_origin) initial
            [MouseDown (num 50) (num 50); MouseDown (num 100) (num 120);
             ClickUndo])
     = [(num 50, num 50)].
Proof.
  split; [|vm_compute; reflexivity].
  intros canvasRef st Hm.
  destruct (context_ready_inv canvasRef Hm) as (canvas & -> & Hctx).
  cbn zeta. rewrite step_undo by exact Hctx. cbn [perspective strokeHistory].
  split; [reflexivity|]. split; [reflexivity|]. split.
  - intros Hnil. destruct st as [p h]. cbn in Hnil. subst h. reflexivity.
  - intros older latest ->. rewrite removelast_last.
    split; [reflexivity|]. rewrite length_app. cbn. lia.
Qed.

Lemma undo_removes_last_witness :
  context_ready (Some canvas_at_origin) = true
  /\ strokeHistory
       (next (step (Some canvas_at_origin)
                {| perspective := (num 0, num 0);
                   strokeHistory := [(num 50, num 50); (num 100, num 120)] |}
                ClickUndo))
     = removelast [(num 50, num 50); (num 100, num 120)].
Proof.
  split; [reflexivity|].
  exact (proj1 (proj2 (proj1 undo_removes_last (Some canvas_at_origin)
    {| perspective := (num 0, num 0);
       strokeHistory := [(num 50, num 50); (num 100, num 120)] |} eq_refl))).
Defined.

(** C3: with the canvas and its context present, Clear-Canvas applied to
    any state yields the empty stroke history and leaves both components of
    the offset as they were. *)
Theorem clear_canvas_keeps_offset :
  forall (canvasRef : CanvasRef) (st : State),
    context_ready canvasRef = true ->
    let st' := next (step canvasRef st ClickClear) in
    strokeHistory st' = []
    /\ fst (perspective st') = fst (perspective st)
    /\ snd (perspective st') = snd (perspective st).
Proof.
  intros canvasRef st Hm.
  destruct (context_ready_inv canvasRef Hm) as (canvas & -> & Hctx).
  cbn zeta. unfold step, handle, handleClearCanvas. cbn [next].
  rewrite with_context_ready by exact Hctx.
  rewrite commit_app, commit_draws. cbn. auto.
Qed.

Lemma clear_canvas_keeps_offset_witness :
  context_ready (Some canvas_at_origin) = true
  /\ strokeHistory
       (next (step (Some canvas_at_origin)
                {| perspective := (num 10, num (-5));
                   strokeHistory := [(num 50, num 50)] |}
                ClickClear))
     = [].
Proof.
  split; [reflexivity|].
  exact (proj1 (clear_canvas_keeps_offset (Some canvas_at_origin)
    {| perspective := (num 10, num (-5));
       strokeHistory := [(num 50, num 50)] |} eq_refl)).
Defined.

(** C4: for every prior state and every number v, the change event of the
    X slider replaces the first component of the offset by v and leaves the
    second as it was, the change event of the Y slider replaces the second
    and leaves the first; neither touches the stroke history, and neither
    depends on the canvas. *)
Theorem set_offset_axis :
  forall (canvasRef : CanvasRef) (st : State) (v : number),
    let stX := next (step canvasRef st (Change "perspectiveX" v)) in
    let stY := next (step canvasRef st (Change "perspectiveY" v)) in
    perspective stX = (v, snd (perspective st))
    /\ perspective stY = (fst (perspective st), v)
    /\ strokeHistory stX = strokeHistory st
    /\ strokeHistory stY = strokeHistory st.
Proof.
  intros canvasRef st v. cbn. auto.
Qed.

(** ** Adding points *)

Lemma step_add (canvas : HTMLCanvasElement) (st : State) (a : AddPoint) :
  has_2d_context canvas = true ->
  next (step (Some canvas) st (add_event a))
  = {| perspective := perspective st;
       strokeHistory := strokeHistory st ++ [added_point canvas a] |}.
Proof.
  intros Hctx. unfold step. cbn [next].
  destruct a as [clientX clientY|rx ry]; cbn [add_event handle added_point].
  - unfold handleMouseDown. rewrite with_context_ready by exact Hctx.
    reflexivity.
  - unfold handleDrawRandomly. rewrite with_context_ready by exact Hctx.
    reflexivity.
Qed.

(** C5: with the canvas and its context present, a sequence of N Add-Point
    operations (pointer presses and random points, in any mix) started
    from any history leaves the old points in place and appends the N new
    points in the order of the calls, so that the length grows by N; the
    offset is not touched. *)
Theorem add_points_append :
  forall (canvas : HTMLCanvasElement) (adds : list AddPoint) (st : State),
    has_2d_context canvas = true ->
    let st' := run (Some canvas) st (map add_event adds) in
    strokeHistory st' = strokeHistory st ++ map (added_point canvas) adds
    /\ List.length (strokeHistory st')
       = (List.length (strokeHistory st) + List.length adds)%nat
    /\ firstn (List.length (strokeHistory st)) (strokeHistory st')
       = strokeHistory st
    /\ perspective st' = perspective st.
Proof.
  intros canvas adds st Hctx. cbn zeta.
  assert (H : run (Some canvas) st (map add_event adds)
              = {| perspective := perspective st;
                   strokeHistory :=
                     strokeHistory st ++ map (added_point canvas) adds |}).
  { revert st. induction adds as [|a adds IH]; intros st.
    - cbn. rewrite app_nil_r. now destruct st.
    - cbn [map]. unfold run in *. cbn [fold_left].
      rewrite IH, step_add by exact Hctx. cbn [perspective strokeHistory].
      now rewrite <- app_assoc. }
  rewrite H. cbn [perspective strokeHistory].
  split; [reflexivity|]. split; [now rewrite length_app, length_map|].
  split; [|reflexivity].
  rewrite firstn_app, Nat.sub_diag, firstn_all. cbn. apply app_nil_r.
Qed.

Lemma add_points_append_witness :
  has_2d_context canvas_at_origin = true
  /\ strokeHistory
       (run (Some canvas_at_origin) initial
            (map add_event [Pointer (num 50) (num 50);
                            Random (num 0) (num 0)]))
     = strokeHistory initial
       ++ map (added_point canvas_at_origin)
              [Pointer (num 50) (num 50); Random (num 0) (num 0)].
Proof.
  split; [reflexivity|].
  exact (proj1 (add_points_append canvas_at_origin
    [Pointer (num 50) (num 50); Random (num 0) (num 0)] initial eq_refl)).
Defined.

(** ** The random point *)

Lemma CANVAS_WIDTH_bits :
  CANVAS_WIDTH = S754_finite false 7036874417766400 (-43).
Proof. vm_compute. reflexivity. Qed.

Lemma CANVAS_HEIGHT_bits :
  CANVAS_HEIGHT = S754_finite false 5277655813324800 (-43).
Proof. vm_compute. reflexivity. Qed.

Lemma below_of_integer (hi : Z) (x : number) :
  forallb (fun k => below 0 hi (num (Z.of_nat k))) (seq 0 (Z.to_nat hi))
  = true ->
  JS.integer_in 0 hi x -> below 0 hi x = true.
Proof.
  intros H (z & Hz & ->). rewrite forallb_forall in H.
  specialize (H (Z.to_nat z)). rewrite Z2Nat.id in H by lia.
  apply H, in_seq. lia.
Qed.

(** C9: with the canvas and its context present, for all values rx and ry
    that Math.random() may return (binary64 values in [0, 1)),
    Add-Random-Point appends the point (floor(rx * CANVAS_WIDTH),
    floor(ry * CANVAS_HEIGHT)), the products being rounded to binary64;
    both coordinates are integers, the first in [0, 800) and the second in
    [0, 600), also for the comparisons of JavaScript. *)
Theorem random_point_in_canvas :
  forall (canvasRef : CanvasRef) (st : State) (rx ry : number),
    context_ready canvasRef = true ->
    JS.is_random rx = true ->
    JS.is_random ry = true ->
    let x := JS.Math_floor (rx * CANVAS_WIDTH)%js in
    let y := JS.Math_floor (ry * CANVAS_HEIGHT)%js in
    strokeHistory (next (step canvasRef st (ClickRandom rx ry)))
    = strokeHistory st ++ [(x, y)]
    /\ JS.integer_in 0 800 x
    /\ JS.integer_in 0 600 y
    /\ below 0 800 x = true
    /\ below 0 600 y = true.
Proof.
  intros canvasRef st rx ry Hm Hrx Hry.
  destruct (context_ready_inv canvasRef Hm) as (canvas & -> & Hctx).
  cbn zeta.
  assert (Hx : JS.integer_in 0 800 (JS.Math_floor (rx * CANVAS_WIDTH)%js)).
  { rewrite CANVAS_WIDTH_bits.
    apply floor_mul_random; [lia|reflexivity|exact Hrx]. }
  assert (Hy : JS.integer_in 0 600 (JS.Math_floor (ry * CANVAS_HEIGHT)%js)).
  { rewrite CANVAS_HEIGHT_bits.
    apply floor_mul_random; [lia|reflexivity|exact Hry]. }
  split; [|split; [exact Hx|split; [exact Hy|split]]].
  - exact (f_equal strokeHistory (step_add canvas st (Random rx ry) Hctx)).
  - apply below_of_integer; [vm_compute; reflexivity|exact Hx].
  - apply below_of_integer; [vm_compute; reflexivity|exact Hy].
Qed.

Lemma random_point_in_canvas_witness :
  context_ready (Some canvas_at_origin) = true
  /\ JS.is_random below_one = true
  /\ JS.is_random (num 0) = true
  /\ JS.integer_in 0 800 (JS.Math_floor (below_one * CANVAS_WIDTH)%js)
  /\ JS.integer_in 0 600 (JS.Math_floor (num 0 * CANVAS_HEIGHT)%js).
Proof.
  split; [reflexivity|]. split; [vm_compute; reflexivity|].
  split; [vm_compute; reflexivity|].
  pose proof (random_point_in_canvas (Some canvas_at_origin) initial
                below_one (num 0) eq_refl eq_refl eq_refl) as H.
  cbn zeta in H. split; [exact (proj1 (proj2 H))|].
  exact (proj1 (proj2 (proj2 H))).
Defined.

(** The largest draw gives the last pixel column, not the width. *)
Example floor_below_one_width :
  JS.Math_floor (below_one * CANVAS_WIDTH)%js = num 799.
Proof. vm_compute. reflexivity. Qed.

(** A pointer press draws its segment at once, and the render that follows
    draws the whole path again. *)
Example mouse_down_draws_twice :
  drawn (step (Some canvas_at_origin) initial (MouseDown (num 50) (num 50)))
  = [lineTo (num 50) (num 50); stroke;
     clearRect (num 0) (num 0) (num 800) (num 600); beginPath;
     moveTo (num 400) (num 300); lineTo (num 50) (num 50); stroke].
Proof. vm_compute. reflexivity. Qed.

(** ** Events and the state *)

(** Only a change event writes the offset. *)
Lemma step_perspective (canvasRef : CanvasRef) (st : State) (ev : Event) :
  perspective (next (step canvasRef st ev))
  = match ev with
    | Change name value =>
        tuple_set (perspective st)
                  (if String.eqb name "perspectiveX" then I0 else I1) value
    | _ => perspective st
    end.
Proof.
  destruct (context_ready canvasRef) eqn:Hm.
  - destruct (context_ready_inv canvasRef Hm) as (canvas & -> & Hctx).
    destruct ev; unfold_handlers; cbn [next];
      rewrite ?with_context_ready by exact Hctx;
      rewrite ?commit_app, ?commit_draws; reflexivity.
  - destruct ev; unfold_handlers; cbn [next];
      rewrite ?with_context_missing by exact Hm;
      try reflexivity.
    destruct canvasRef; reflexivity.
Qed.

(** Without the canvas or its context, only a change event writes the
    state. *)
Lemma step_missing (canvasRef : CanvasRef) (st : State) (ev : Event) :
  context_ready canvasRef = false ->
  next (step canvasRef st ev)
  = match ev with
    | Change name value =>
        {| perspective :=
             tuple_set (perspective st)
                       (if String.eqb name "perspectiveX" then I0 else I1)
                       value;
           strokeHistory := strokeHistory st |}
    | _ => st
    end.
Proof.
  intros Hm. destruct ev; unfold_handlers; cbn [next];
    rewrite ?with_context_missing by exact Hm; try reflexivity.
  destruct canvasRef; reflexivity.
Qed.

Lemma drawn_missing (canvasRef : CanvasRef) (st : State) (ev : Event) :
  context_ready canvasRef = false -> drawn (step canvasRef st ev) = [].
Proof.
  intros Hm. destruct ev; unfold_handlers; cbn [drawn];
    rewrite ?with_context_missing by exact Hm; try reflexivity.
  - cbn. unfold useEffect_render. now apply with_context_missing.
  - destruct canvasRef; reflexivity.
Qed.

(** ** The offset stays within the bounds of the sliders *)

Lemma slider_value_range (input : RangeInput) (position : Z) :
  In input rendered_inputs -> -200 <= slider_value input position <= 200.
Proof.
  intros [<-|[<-|[]]]; unfold slider_value; cbn; lia.
Qed.

Lemma within_slider_bounds (z : Z) :
  -200 <= z <= 200 -> within (-200) 200 (num z) = true.
Proof.
  intros Hz.
  assert (H : forallb (fun k => within (-200) 200 (num (Z.of_nat k - 200)))
                      (seq 0 401) = true) by (vm_compute; reflexivity).
  rewrite forallb_forall in H.
  specialize (H (Z.to_nat (z + 200))).
  replace (Z.of_nat (Z.to_nat (z + 200)) - 200) with z in H by lia.
  apply H, in_seq. lia.
Qed.

Lemma reachable_offset_ok (st : State) :
  reachable st -> offset_ok (perspective st).
Proof.
  induction 1 as [|st canvasRef a _ IH Ha].
  - split; exists 0; split; try lia; reflexivity.
  - rewrite step_perspective. destruct a as [input position|ev].
    + cbn [event_of]. pose proof (slider_value_range input position Ha) as Hr.
      destruct IH as [IHx IHy].
      destruct (String.eqb (input_name input) "perspectiveX");
        split; cbn [tuple_set fst snd]; try assumption;
        exists (slider_value input position); split; try lia; reflexivity.
    + cbn [event_of]. destruct ev; try exact IH. contradiction Ha.
Qed.

(** C6: in every reachable state both components of the offset lie in
    [-200, 200] (they are integers of that range, and the comparisons of
    JavaScript place them there). A slider asked for a position above 200,
    such as 250, hands 200 to the handler, and one asked for a position
    below -200 hands -200, so no value outside the range reaches the state;
    a position inside the range, the boundary 200 included, is stored as it
    is. *)
Theorem offset_within_slider_bounds :
  (forall st : State,
      reachable st ->
      offset_ok (perspective st)
      /\ within (-200) 200 (fst (perspective st)) = true
      /\ within (-200) 200 (snd (perspective st)) = true)
  /\ (forall (canvasRef : CanvasRef) (st : State) (position : Z),
        let stX :=
          next (step canvasRef st
                     (event_of (Slide perspectiveX_input position))) in
        (200 < position -> perspective stX = (num 200, snd (perspective st)))
        /\ (position < -200 ->
            perspective stX = (num (-200), snd (perspective st)))
        /\ (-200 <= position <= 200 ->
            perspective stX = (num position, snd (perspective st))))
  /\ (forall (canvasRef : CanvasRef) (st : State),
        perspective
          (next (step canvasRef st (event_of (Slide perspectiveX_input 250))))
        = (num 200, snd (perspective st))
        /\ perspective
             (next (step canvasRef st
                         (event_of (Slide perspectiveX_input 200))))
           = (num 200, snd (perspective st))).
Proof.
  split; [|split].
  - intros st Hst. pose proof (reachable_offset_ok st Hst) as Hok.
    split; [exact Hok|].
    destruct Hok as [(zx & Hzx & ->) (zy & Hzy & ->)].
    split; apply within_slider_bounds; lia.
  - intros canvasRef st position. cbn zeta. rewrite step_perspective.
    cbn [event_of input_name perspectiveX_input String.eqb Ascii.eqb
         Bool.eqb tuple_set].
    unfold slider_value. cbn [input_min input_max perspectiveX_input].
    repeat split; intros H; do 2 f_equal; lia.
  - intros canvasRef st. rewrite !step_perspective. split; reflexivity.
Qed.

Lemma offset_within_slider_bounds_witness :
  within (-200) 200
    (fst (perspective
            (next (step None initial
                        (event_of (Slide perspectiveX_input 250))))))
  = true.
Proof.
  refine (proj1 (proj2 (proj1 offset_within_slider_bounds _ _))).
  apply reachable_step; [apply reachable_initial|].
  left. reflexivity.
Defined.

(** The handler itself has no bound: called with 250 it stores 250. *)
Lemma handlePerspectiveChange_unguarded (canvasRef : CanvasRef) (st : State) :
  perspective (next (step canvasRef st (Change "perspectiveX" (num 250))))
  = (num 250, snd (perspective st)).
Proof. rewrite step_perspective. reflexivity. Qed.

(** ** A missing canvas or context *)

(** C7, as stated (every operation is a no-op without the canvas or its
    context), fails: with no canvas mounted, the change event of the X
    slider with value 10 turns the offset (0, 0) into (10, 0). *)
Lemma missing_surface_noop_counterexample :
  context_ready None = false
  /\ perspective (next (step None initial (Change "perspectiveX" (num 10))))
     = (num 10, num 0)
  /\ next (step None initial (Change "perspectiveX" (num 10))) <> initial.
Proof.
  split; [reflexivity|]. split; [reflexivity|].
  intros H. apply (f_equal (fun st => fst (perspective st))) in H.
  vm_compute in H. discriminate H.
Qed.

(** C7, amended: without the canvas or its context no operation issues a
    draw call, and Add-Point (pointer and random), Undo, Clear and Export
    leave the offset and the stroke history as they are;
    Set-Offset-Axis has no guard and still replaces its component of the
    offset. *)
Theorem missing_surface_effects :
  forall (canvasRef : CanvasRef) (st : State) (ev : Event),
    context_ready canvasRef = false ->
    drawn (step canvasRef st ev) = []
    /\ match ev with
       | Change name value =>
           next (step canvasRef st ev)
           = {| perspective :=
                  tuple_set (perspective st)
                            (if String.eqb name "perspectiveX" then I0 else I1)
                            value;
                strokeHistory := strokeHistory st |}
       | _ => next (step canvasRef st ev) = st
       end.
Proof.
  intros canvasRef st ev Hm. split; [now apply drawn_missing|].
  rewrite step_missing by exact Hm. destruct ev; reflexivity.
Qed.

Lemma missing_surface_effects_witness :
  context_ready None = false
  /\ drawn (step None initial ClickUndo) = []
  /\ next (step None initial ClickUndo) = initial.
Proof.
  split; [reflexivity|].
  exact (missing_surface_effects None initial ClickUndo eq_refl).
Defined.

(** ** Undo redraws what the render effect draws *)

Lemma sets_state_undo (canvas : HTMLCanvasElement) (st : State) :
  has_2d_context canvas = true ->
  sets_state (handle (Some canvas) st ClickUndo) = true.
Proof.
  intros Hctx. unfold handle, handleUndoStroke.
  rewrite with_context_ready by exact Hctx.
  unfold sets_state. rewrite !existsb_app. cbn. now rewrite ?orb_true_r.
Qed.

(** C8: for every state (and whether or not the canvas is there), the draw
    calls Undo-Last-Stroke makes itself are exactly the draw calls of the
    render effect on the state after the undo: the same clear, the same
    anchor move and the same segments in the same order. The render that
    follows the undo repeats them, and the surface after both is the
    surface the render effect alone produces. *)
Theorem undo_redraw_matches_render :
  forall (canvasRef : CanvasRef) (st : State),
    let st' := next (step canvasRef st ClickUndo) in
    draws (handle canvasRef st ClickUndo) = useEffect_render canvasRef st'
    /\ drawn (step canvasRef st ClickUndo)
       = useEffect_render canvasRef st' ++ useEffect_render canvasRef st'
    /\ forall before : Surface,
         paint before (drawn (step canvasRef st ClickUndo))
         = paint before (useEffect_render canvasRef st').
Proof.
  intros canvasRef st. cbn zeta.
  assert (Hdraws : draws (handle canvasRef st ClickUndo)
                   = useEffect_render canvasRef
                       (next (step canvasRef st ClickUndo))).
  { destruct (context_ready canvasRef) eqn:Hm.
    - destruct (context_ready_inv canvasRef Hm) as (canvas & -> & Hctx).
      rewrite step_undo by exact Hctx.
      unfold handle, handleUndoStroke, useEffect_render.
      rewrite !with_context_ready by exact Hctx.
      rewrite !draws_app, !draws_map_Draw. reflexivity.
    - rewrite step_missing by exact Hm.
      unfold handle, handleUndoStroke, useEffect_render.
      now rewrite !with_context_missing by exact Hm. }
  assert (Hdrawn : drawn (step canvasRef st ClickUndo)
                   = useEffect_render canvasRef
                       (next (step canvasRef st ClickUndo))
                     ++ useEffect_render canvasRef
                          (next (step canvasRef st ClickUndo))).
  { rewrite <- Hdraws at 1. unfold step at 1. cbn [drawn]. f_equal.
    destruct (context_ready canvasRef) eqn:Hm.
    - destruct (context_ready_inv canvasRef Hm) as (canvas & -> & Hctx).
      now rewrite sets_state_undo by exact Hctx.
    - unfold useEffect_render. rewrite !with_context_missing by exact Hm.
      now destruct (sets_state _). }
  split; [exact Hdraws|]. split; [exact Hdrawn|].
  intros before. rewrite Hdrawn.
  destruct (context_ready canvasRef) eqn:Hm.
  - destruct (context_ready_inv canvasRef Hm) as (canvas & -> & Hctx).
    unfold useEffect_render. rewrite with_context_ready by exact Hctx.
    unfold paint. rewrite !fold_left_app.
    fold (paint before (reset_path
            (perspective (next (step (Some canvas) st ClickUndo))))).
    rewrite paint_reset_path.
    match goal with
    | |- context [fold_left exec (reset_path ?p) ?s] =>
        change (fold_left exec (reset_path p) s) with (paint s (reset_path p))
    end.
    now rewrite paint_reset_path.
  - unfold useEffect_render. now rewrite with_context_missing by exact Hm.
Qed.

(** ** Export *)

(** C10: for every state, every canvas reference and every random draw,
    Export-Image leaves the offset and the stroke history as they are; it
    issues no draw call, and its only effect is the download, made when a
    canvas is there. *)
Theorem save_image_keeps_state :
  forall (canvasRef : CanvasRef) (st : State) (r : number),
    next (step canvasRef st (ClickSave r)) = st
    /\ drawn (step canvasRef st (ClickSave r)) = []
    /\ saved (step canvasRef st (ClickSave r))
       = match canvasRef with
         | Some _ => [JS.Math_floor (r * num 1000)%js]
         | None => []
         end.
Proof.
  intros canvasRef st r. destruct canvasRef; repeat split; reflexivity.
Qed.

(** With a canvas whose context is missing the download is still made:
    [handleSaveImage] tests the canvas only. *)
Lemma save_image_ignores_context (canvas : HTMLCanvasElement) (st : State)
    (r : number) :
  saved (step (Some canvas) st (ClickSave r))
  = [JS.Math_floor (r * num 1000)%js].
Proof. reflexivity. Qed.

(** The number in the file name is an integer in [0, 1000). *)
Lemma save_image_suffix (canvas : HTMLCanvasElement) (st : State)
    (r : number) :
  JS.is_random r = true ->
  Forall (JS.integer_in 0 1000) (saved (step (Some canvas) st (ClickSave r))).
Proof.
  intros Hr. rewrite save_image_ignores_context.
  constructor; [|constructor].
  replace (num 1000) with (S754_finite false 8796093022208000 (-43))
    by (vm_compute; reflexivity).
  apply floor_mul_random; [lia|reflexivity|exact Hr].
Qed.

(** * Further properties of the handlers *)

(** ** The next state in closed form *)

Lemma step_clear (canvas : HTMLCanvasElement) (st : State) :
  has_2d_context canvas = true ->
  next (step (Some canvas) st ClickClear)
  = {| perspective := perspective st; strokeHistory := [] |}.
Proof.
  intros Hctx. unfold step, handle, handleClearCanvas. cbn [next].
  rewrite with_context_ready by exact Hctx.
  rewrite commit_app, commit_draws. reflexivity.
Qed.

Lemma step_ready (canvas : HTMLCanvasElement) (st : State) (ev : Event) :
  has_2d_context canvas = true ->
  next (step (Some canvas) st ev)
  = match ev with
    | Change name value =>
        {| perspective :=
             tuple_set (perspective st)
                       (if String.eqb name "perspectiveX" then I0 else I1)
                       value;
           strokeHistory := strokeHistory st |}
    | MouseDown clientX clientY =>
        {| perspective := perspective st;
           strokeHistory :=
             strokeHistory st
             ++ [added_point canvas (Pointer clientX clientY)] |}
    | ClickUndo =>
        {| perspective := perspective st;
           strokeHistory := removelast (strokeHistory st) |}
    | ClickRandom rx ry =>
        {| perspective := perspective st;
           strokeHistory :=
             strokeHistory st ++ [added_point canvas (Random rx ry)] |}
    | ClickSave _ => st
    | ClickClear => {| perspective := perspective st; strokeHistory := [] |}
    end.
Proof.
  intros Hctx. destruct ev as [name value|cx cy| |rx ry|r|].
  - reflexivity.
  - exact (step_add canvas st (Pointer cx cy) Hctx).
  - exact (step_undo canvas st Hctx).
  - exact (step_add canvas st (Random rx ry) Hctx).
  - reflexivity.
  - exact (step_clear canvas st Hctx).
Qed.

Lemma run_cons (canvasRef : CanvasRef) (st : State) (ev : Event)
    (evs : list Event) :
  run canvasRef st (ev :: evs)
  = run canvasRef (next (step canvasRef st ev)) evs.
Proof. reflexivity. Qed.

Lemma run_app (canvasRef : CanvasRef) (st : State) (l1 l2 : list Event) :
  run canvasRef st (l1 ++ l2) = run canvasRef (run canvasRef st l1) l2.
Proof. apply fold_left_app. Qed.

(** ** The surface follows the state *)

(** Whatever was on the surface, the render effect leaves the replay of the
    history painted from the anchor. *)
Lemma paint_render (canvas : HTMLCanvasElement) (st : State) (s : Surface) :
  has_2d_context canvas = true ->
  paint s (useEffect_render (Some canvas) st)
  = paint {| pen := Some (anchor (perspective st)); path := []; pixels := [] |}
          (replay (strokeHistory st)).
Proof.
  intros Hctx. unfold useEffect_render.
  rewrite with_context_ready by exact Hctx.
  unfold paint. rewrite fold_left_app.
  fold (paint s (reset_path (perspective st))).
  now rewrite paint_reset_path.
Qed.

Lemma sets_state_ready (canvas : HTMLCanvasElement) (st : State) (ev : Event) :
  has_2d_context canvas = true ->
  (forall r, ev <> ClickSave r) ->
  sets_state (handle (Some canvas) st ev) = true.
Proof.
  intros Hctx Hev. destruct ev as [name value|cx cy| |rx ry|r|].
  - reflexivity.
  - unfold handle, handleMouseDown.
    now rewrite with_context_ready by exact Hctx.
  - now apply sets_state_undo.
  - unfold handle, handleDrawRandomly.
    now rewrite with_context_ready by exact Hctx.
  - now contradiction (Hev r).
  - unfold handle, handleClearCanvas.
    rewrite with_context_ready by exact Hctx.
    unfold sets_state. rewrite existsb_app. cbn. now rewrite ?orb_true_r.
Qed.

(** The draw calls of an event that writes the state end with the render
    of the next state, which wipes what the handler drew itself. *)
Lemma paint_step (canvas : HTMLCanvasElement) (st : State) (ev : Event)
    (s before : Surface) :
  has_2d_context canvas = true ->
  (forall r, ev <> ClickSave r) ->
  paint s (drawn (step (Some canvas) st ev))
  = paint before
          (useEffect_render (Some canvas) (next (step (Some canvas) st ev))).
Proof.
  intros Hctx Hev. unfold step. cbn [drawn next].
  rewrite sets_state_ready by assumption.
  unfold paint at 1. rewrite fold_left_app.
  fold (paint s (draws (handle (Some canvas) st ev))).
  match goal with
  | |- fold_left exec ?cmds ?s0 = _ => change (paint s0 cmds = paint before cmds)
  end.
  now rewrite !paint_render by exact Hctx.
Qed.

(** X1: with the canvas and its context present, the surface always shows
    the render of the current state. Started from the surface a render of
    [st] left, any sequence of events ends on the surface the render
    effect alone produces for the final state: its path is the polyline
    from the anchor through the final history, the pen is on its last
    point, and nothing else is painted. What the handlers drew themselves
    (the incremental segment of an added point, the redraw of an undo)
    leaves no trace. *)
Theorem canvas_shows_state :
  forall (canvasRef : CanvasRef) (evs : list Event) (st : State)
         (before : Surface),
    context_ready canvasRef = true ->
    let final := run canvasRef st evs in
    let shown := paint before (useEffect_render canvasRef final) in
    run_surface canvasRef (st, paint before (useEffect_render canvasRef st)) evs
    = (final, shown)
    /\ pen shown
       = Some (last (strokeHistory final) (anchor (perspective final)))
    /\ path shown
       = polyline (anchor (perspective final)) (strokeHistory final)
    /\ forall seg : Segment,
         In seg (pixels shown)
         <-> In seg (polyline (anchor (perspective final))
                              (strokeHistory final)).
Proof.
  intros canvasRef evs st before Hm.
  destruct (context_ready_inv canvasRef Hm) as (canvas & -> & Hctx).
  cbn zeta. split.
  - revert st. induction evs as [|ev evs IH]; intros st; [reflexivity|].
    rewrite run_cons. unfold run_surface in *. cbn [fold_left].
    rewrite <- IH. f_equal. unfold step_surface. cbn [fst snd]. f_equal.
    destruct ev as [name value|cx cy| |rx ry|r|];
      try (apply paint_step; [exact Hctx|discriminate]).
    reflexivity.
  - rewrite paint_render by exact Hctx.
    destruct (paint_replay (strokeHistory (run (Some canvas) st evs))
                (anchor (perspective (run (Some canvas) st evs))) [] [])
      as (Hpen & Hpath & Hpix).
    split; [exact Hpen|]. split; [exact Hpath|].
    intros seg. apply (iff_trans (Hpix seg)). cbn [In].
    split; [intros [[]|[[_ []]|H]]; exact H|auto].
Qed.

Lemma canvas_shows_state_witness :
  context_ready (Some canvas_at_origin) = true
  /\ fst (run_surface (Some canvas_at_origin)
            (mount (Some canvas_at_origin)
                   {| pen := None; path := []; pixels := [] |})
            [MouseDown (num 50) (num 50); ClickUndo])
     = run (Some canvas_at_origin) initial
           [MouseDown (num 50) (num 50); ClickUndo].
Proof.
  split; [reflexivity|].
  exact (f_equal fst
    (proj1 (canvas_shows_state (Some canvas_at_origin)
              [MouseDown (num 50) (num 50); ClickUndo] initial
              {| pen := None; path := []; pixels := [] |} eq_refl))).
Defined.

Lemma replay_snoc (history : StrokeHistory) (point : Stroke) :
  replay (history ++ [point])
  = replay history ++ [lineTo (fst point) (snd point); stroke].
Proof. unfold replay. now rewrite flat_map_app. Qed.

(** X2: the segment an Add-Point handler draws at once is the segment the
    next render will draw. Painted on the surface the last render left, the
    handler's own [lineTo] and [stroke] give exactly the surface the render
    effect produces for the state with the point appended. *)
Theorem incremental_draw_matches_render :
  forall (canvas : HTMLCanvasElement) (st : State) (a : AddPoint)
         (before : Surface),
    has_2d_context canvas = true ->
    paint (paint before (useEffect_render (Some canvas) st))
          (draws (handle (Some canvas) st (add_event a)))
    = paint before
            (useEffect_render (Some canvas)
               (next (step (Some canvas) st (add_event a)))).
Proof.
  intros canvas st a before Hctx.
  rewrite step_add by exact Hctx.
  assert (Hd : draws (handle (Some canvas) st (add_event a))
               = [lineTo (fst (added_point canvas a))
                         (snd (added_point canvas a)); stroke]).
  { destruct a as [cx cy|rx ry]; cbn [add_event handle];
      unfold handleMouseDown, handleDrawRandomly;
      rewrite with_context_ready by exact Hctx; reflexivity. }
  rewrite Hd. unfold useEffect_render.
  rewrite !with_context_ready by exact Hctx.
  cbn [perspective strokeHistory]. rewrite replay_snoc, app_assoc.
  unfold paint. now rewrite (fold_left_app exec (_ ++ _) [_; _]).
Qed.

Lemma incremental_draw_matches_render_witness :
  has_2d_context canvas_at_origin = true
  /\ paint (paint {| pen := None; path := []; pixels := [] |}
                  (useEffect_render (Some canvas_at_origin) initial))
           (draws (handle (Some canvas_at_origin) initial
                          (add_event (Pointer (num 50) (num 50)))))
     = paint {| pen := None; path := []; pixels := [] |}
             (useEffect_render (Some canvas_at_origin)
                (next (step (Some canvas_at_origin) initial
                            (add_event (Pointer (num 50) (num 50)))))).
Proof.
  split; [reflexivity|].
  exact (incremental_draw_matches_render canvas_at_origin initial
           (Pointer (num 50) (num 50))
           {| pen := None; path := []; pixels := [] |} eq_refl).
Defined.

(** X3: with the canvas and its context present, after Clear-Canvas (its
    own draw calls and the render that follows) the surface shows no
    segment at all, whatever was painted before: the path is empty and the
    pen waits on the anchor of the unchanged offset. *)
Theorem clear_shows_only_anchor :
  forall (canvasRef : CanvasRef) (st : State) (before : Surface),
    context_ready canvasRef = true ->
    paint before (drawn (step canvasRef st ClickClear))
    = {| pen := Some (anchor (perspective st)); path := []; pixels := [] |}.
Proof.
  intros canvasRef st before Hm.
  destruct (context_ready_inv canvasRef Hm) as (canvas & -> & Hctx).
  rewrite (paint_step canvas st ClickClear before before Hctx)
    by discriminate.
  rewrite paint_render by exact Hctx.
  rewrite step_clear by exact Hctx. reflexivity.
Qed.

Lemma clear_shows_only_anchor_witness :
  context_ready (Some canvas_at_origin) = true
  /\ pixels
       (paint {| pen := None; path := [];
                 pixels := [((num 1, num 2), (num 3, num 4))] |}
              (drawn (step (Some canvas_at_origin)
                        {| perspective := (num 10, num (-5));
                           strokeHistory := [(num 50, num 50)] |}
                        ClickClear)))
     = [].
Proof.
  split; [reflexivity|].
  exact (f_equal pixels
    (clear_shows_only_anchor (Some canvas_at_origin)
       {| perspective := (num 10, num (-5));
          strokeHistory := [(num 50, num 50)] |}
       {| pen := None; path := [];
          pixels := [((num 1, num 2), (num 3, num 4))] |} eq_refl)).
Defined.

(** ** Adding and undoing *)

Lemma run_adds (canvas : HTMLCanvasElement) (adds : list AddPoint) :
  has_2d_context canvas = true ->
  forall st : State,
    run (Some canvas) st (map add_event adds)
    = {| perspective := perspective st;
         strokeHistory := strokeHistory st ++ map (added_point canvas) adds |}.
Proof.
  intros Hctx. induction adds as [|a adds IH]; intros st.
  - cbn. rewrite app_nil_r. now destruct st.
  - cbn [map]. rewrite run_cons, IH, step_add by exact Hctx.
    cbn [perspective strokeHistory]. now rewrite <- app_assoc.
Qed.

Lemma run_undos (canvas : HTMLCanvasElement) (k : nat) :
  has_2d_context canvas = true ->
  forall st : State,
    run (Some canvas) st (repeat ClickUndo k)
    = {| perspective := perspective st;
         strokeHistory :=
           firstn (List.length (strokeHistory st) - k) (strokeHistory st) |}.
Proof.
  intros Hctx. induction k as [|k IH]; intros st.
  - cbn [repeat]. rewrite Nat.sub_0_r, firstn_all. now destruct st.
  - cbn [repeat]. rewrite run_cons, IH, step_undo by exact Hctx.
    cbn [perspective strokeHistory]. f_equal.
    rewrite (removelast_firstn_len (strokeHistory st)).
    rewrite firstn_firstn, length_firstn. f_equal. lia.
Qed.

(** X4: with the canvas and its context present, N Add-Point operations
    followed by N undos give back the state they started from: every undo
    removes the point of the latest add that is still there. *)
Theorem adds_then_undos_restore :
  forall (canvas : HTMLCanvasElement) (adds : list AddPoint) (st : State),
    has_2d_context canvas = true ->
    run (Some canvas) st
        (map add_event adds ++ repeat ClickUndo (List.length adds))
    = st.
Proof.
  intros canvas adds st Hctx.
  rewrite run_app, run_adds, run_undos by exact Hctx.
  cbn [perspective strokeHistory].
  rewrite length_app, length_map.
  replace (List.length (strokeHistory st) + List.length adds
           - List.length adds)%nat
    with (List.length (strokeHistory st) + 0)%nat by lia.
  rewrite firstn_app_2, firstn_0, app_nil_r. now destruct st.
Qed.

Lemma adds_then_undos_restore_witness :
  has_2d_context canvas_at_origin = true
  /\ run (Some canvas_at_origin) initial
         (map add_event [Pointer (num 50) (num 50); Random (num 0) (num 0)]
          ++ repeat ClickUndo 2)
     = initial.
Proof.
  split; [reflexivity|].
  exact (adds_then_undos_restore canvas_at_origin
           [Pointer (num 50) (num 50); Random (num 0) (num 0)] initial
           eq_refl).
Defined.

(** X5: with the canvas and its context present, k undos in a row keep
    the first n - k points of a history of n points, in their order, and
    leave the offset alone; once the history is empty further undos change
    nothing. *)
Theorem undo_repeat_keeps_prefix :
  forall (canvasRef : CanvasRef) (k : nat) (st : State),
    context_ready canvasRef = true ->
    let st' := run canvasRef st (repeat ClickUndo k) in
    strokeHistory st'
    = firstn (List.length (strokeHistory st) - k) (strokeHistory st)
    /\ perspective st' = perspective st
    /\ ((List.length (strokeHistory st) <= k)%nat -> strokeHistory st' = []).
Proof.
  intros canvasRef k st Hm.
  destruct (context_ready_inv canvasRef Hm) as (canvas & -> & Hctx).
  cbn zeta. rewrite run_undos by exact Hctx.
  cbn [perspective strokeHistory].
  split; [reflexivity|]. split; [reflexivity|].
  intros Hk.
  replace (List.length (strokeHistory st) - k)%nat with 0%nat by lia.
  apply firstn_0.
Qed.

Lemma undo_repeat_keeps_prefix_witness :
  context_ready (Some canvas_at_origin) = true
  /\ strokeHistory
       (run (Some canvas_at_origin)
            {| perspective := (num 0, num 0);
               strokeHistory := [(num 1, num 1); (num 2, num 2);
                                 (num 3, num 3)] |}
            (repeat ClickUndo 2))
     = firstn (3 - 2) [(num 1, num 1); (num 2, num 2); (num 3, num 3)].
Proof.
  split; [reflexivity|].
  exact (proj1 (undo_repeat_keeps_prefix (Some canvas_at_origin) 2
    {| perspective := (num 0, num 0);
       strokeHistory := [(num 1, num 1); (num 2, num 2); (num 3, num 3)] |}
    eq_refl)).
Defined.

(** ** The sliders *)

Lemma step_change (canvasRef : CanvasRef) (st : State) (name : string)
    (value : number) :
  next (step canvasRef st (Change name value))
  = {| perspective :=
         tuple_set (perspective st)
                   (if String.eqb name "perspectiveX" then I0 else I1) value;
       strokeHistory := strokeHistory st |}.
Proof. reflexivity. Qed.

(** X6: change events compose as writes to two independent cells. On one
    slider the last value wins, whatever was written before; the X and the
    Y slider commute, and after both the offset is the pair of the two
    values. The canvas references play no part. *)
Theorem slider_writes_compose :
  forall (c1 c2 c3 : CanvasRef) (st : State) (name : string) (v w : number),
    next (step c2 (next (step c1 st (Change name v))) (Change name w))
    = next (step c3 st (Change name w))
    /\ next (step c2 (next (step c1 st (Change "perspectiveX" v)))
                  (Change "perspectiveY" w))
       = next (step c2 (next (step c1 st (Change "perspectiveY" w)))
                   (Change "perspectiveX" v))
    /\ perspective
         (next (step c2 (next (step c1 st (Change "perspectiveX" v)))
                     (Change "perspectiveY" w)))
       = (v, w).
Proof.
  intros c1 c2 c3 st name v w. rewrite !step_change.
  cbn [perspective strokeHistory].
  split; [|split; reflexivity].
  destruct (String.eqb name "perspectiveX"); reflexivity.
Qed.

(** X7: the handler tests the name against "perspectiveX" only: a change
    event under any other name, "perspectiveY" or not, writes the second
    component of the offset and leaves the first. *)
Theorem other_name_writes_y :
  forall (canvasRef : CanvasRef) (st : State) (name : string) (v : number),
    name <> "perspectiveX"%string ->
    perspective (next (step canvasRef st (Change name v)))
    = (fst (perspective st), v).
Proof.
  intros canvasRef st name v Hname. rewrite step_change.
  cbn [perspective].
  apply String.eqb_neq in Hname. now rewrite Hname.
Qed.

Lemma other_name_writes_y_witness :
  "zoom"%string <> "perspectiveX"%string
  /\ perspective (next (step None initial (Change "zoom" (num 7))))
     = (fst (perspective initial), num 7).
Proof.
  assert (H : "zoom"%string <> "perspectiveX"%string) by discriminate.
  split; [exact H|].
  exact (other_name_writes_y None initial "zoom" (num 7) H).
Defined.

(** ** The anchor of a reachable state *)

Lemma number_eqb_eq (x y : number) : number_eqb x y = true -> x = y.
Proof.
  destruct x as [a|a| |a m e], y as [b|b| |b m' e']; cbn;
    try discriminate; try reflexivity.
  - intros H. apply Bool.eqb_prop in H. now subst.
  - intros H. apply Bool.eqb_prop in H. now subst.
  - intros H. apply andb_prop in H as [H He]. apply andb_prop in H as [Hs Hm].
    apply Bool.eqb_prop in Hs. apply Pos.eqb_eq in Hm. apply Z.eqb_eq in He.
    now subst.
Qed.

Lemma anchor_of_integers (zx zy : Z) :
  -200 <= zx <= 200 -> -200 <= zy <= 200 ->
  anchor (num zx, num zy) = (num (400 + zx), num (300 + zy))
  /\ within 0 800 (num (400 + zx)) = true
  /\ within 0 600 (num (300 + zy)) = true.
Proof.
  intros Hx Hy.
  assert (H : forallb (fun k =>
                let z := Z.of_nat k - 200 in
                number_eqb (CANVAS_WIDTH / num 2 + num z)%js (num (400 + z))
                && number_eqb (CANVAS_HEIGHT / num 2 + num z)%js
                              (num (300 + z))
                && within 0 800 (num (400 + z))
                && within 0 600 (num (300 + z)))
              (seq 0 401) = true) by (vm_compute; reflexivity).
  rewrite forallb_forall in H.
  pose proof (H (Z.to_nat (zx + 200)) ltac:(apply in_seq; lia)) as Hzx.
  pose proof (H (Z.to_nat (zy + 200)) ltac:(apply in_seq; lia)) as Hzy.
  cbn zeta in Hzx, Hzy.
  replace (Z.of_nat (Z.to_nat (zx + 200)) - 200) with zx in Hzx by lia.
  replace (Z.of_nat (Z.to_nat (zy + 200)) - 200) with zy in Hzy by lia.
  apply andb_prop in Hzx as [Hzx Hwx']. apply andb_prop in Hzx as [Hzx Hwx].
  apply andb_prop in Hzx as [Hax _].
  apply andb_prop in Hzy as [Hzy Hwy]. apply andb_prop in Hzy as [Hzy _].
  apply andb_prop in Hzy as [_ Hay].
  apply number_eqb_eq in Hax, Hay.
  unfold anchor. cbn [fst snd]. now rewrite Hax, Hay.
Qed.

(** X8: in every reachable state the anchor of the path, computed in
    binary64 as CANVAS_WIDTH / 2 + offset.x and CANVAS_HEIGHT / 2 +
    offset.y, is a point with integer coordinates inside the canvas: x is
    between 200 and 600 and y between 100 and 500. The additions are exact
    and the sliders cannot move the start of the path off the canvas. *)
Theorem anchor_inside_canvas :
  forall st : State,
    reachable st ->
    exists ax ay : Z,
      200 <= ax <= 600 /\ 100 <= ay <= 500
      /\ anchor (perspective st) = (num ax, num ay)
      /\ within 0 800 (fst (anchor (perspective st))) = true
      /\ within 0 600 (snd (anchor (perspective st))) = true.
Proof.
  intros st Hst.
  destruct (reachable_offset_ok st Hst) as [(zx & Hzx & Hx) (zy & Hzy & Hy)].
  destruct (perspective st) as [px py]. cbn [fst snd] in Hx, Hy. subst px py.
  destruct (anchor_of_integers zx zy ltac:(lia) ltac:(lia))
    as (Ha & Hwx & Hwy).
  exists (400 + zx), (300 + zy).
  split; [lia|]. split; [lia|]. split; [exact Ha|].
  rewrite Ha. cbn [fst snd]. now split.
Qed.

Lemma anchor_inside_canvas_witness :
  exists ax ay : Z,
    200 <= ax <= 600 /\ 100 <= ay <= 500
    /\ anchor (perspective
                 (next (step None initial
                             (event_of (Slide perspectiveX_input 250)))))
       = (num ax, num ay).
Proof.
  destruct (anchor_inside_canvas
              (next (step None initial
                          (event_of (Slide perspectiveX_input 250)))))
    as (ax & ay & Hx & Hy & Ha & _).
  - apply reachable_step; [apply reachable_initial|]. left. reflexivity.
  - exists ax, ay. auto.
Defined.

(** ** Export *)

(** X9: Export-Image tests the canvas only. With a canvas, even one whose
    2D context is missing, it makes exactly one download, named after an
    integer in [0, 1000) for every value Math.random() may return; with no
    canvas it makes none. It never draws. *)
Theorem export_download :
  forall (st : State) (r : number),
    JS.is_random r = true ->
    (forall canvas : HTMLCanvasElement,
        exists n : number,
          saved (step (Some canvas) st (ClickSave r)) = [n]
          /\ JS.integer_in 0 1000 n
          /\ drawn (step (Some canvas) st (ClickSave r)) = [])
    /\ saved (step None st (ClickSave r)) = []
    /\ drawn (step None st (ClickSave r)) = [].
Proof.
  intros st r Hr. split; [|split; reflexivity].
  intros canvas. exists (JS.Math_floor (r * num 1000)%js).
  split; [reflexivity|]. split; [|reflexivity].
  replace (num 1000) with (S754_finite false 8796093022208000 (-43))
    by (vm_compute; reflexivity).
  apply floor_mul_random; [lia|reflexivity|exact Hr].
Qed.

Lemma export_download_witness :
  JS.is_random below_one = true
  /\ saved (step None initial (ClickSave below_one)) = [].
Proof.
  assert (H : JS.is_random below_one = true) by (vm_compute; reflexivity).
  split; [exact H|].
  exact (proj1 (proj2 (export_download initial below_one H))).
Defined.

(** ** What a run leaves alone *)

Lemma step_keeps_history (canvasRef : CanvasRef) (st : State) (ev : Event) :
  keeps_history ev = true ->
  strokeHistory (next (step canvasRef st ev)) = strokeHistory st.
Proof.
  destruct ev; cbn [keeps_history]; try discriminate; intros _.
  - reflexivity.
  - destruct canvasRef; reflexivity.
Qed.

(** X10: over a whole run, whatever the canvas reference, the offset is
    written by change events only and the stroke history is never written
    by change events or exports: a run without change events ends with the
    offset it started with, and a run of change events and exports ends
    with the history it started with. *)
Theorem run_frame :
  forall (canvasRef : CanvasRef) (evs : list Event) (st : State),
    (forallb (fun ev => negb (is_change ev)) evs = true ->
     perspective (run canvasRef st evs) = perspective st)
    /\ (forallb keeps_history evs = true ->
        strokeHistory (run canvasRef st evs) = strokeHistory st).
Proof.
  intros canvasRef evs. induction evs as [|ev evs IH]; intros st.
  - split; reflexivity.
  - rewrite run_cons. cbn [forallb].
    destruct (IH (next (step canvasRef st ev))) as [IHp IHh]. split.
    + intros H. apply andb_prop in H as [Hev Hevs].
      rewrite IHp by exact Hevs. rewrite step_perspective.
      destruct ev; try reflexivity. discriminate Hev.
    + intros H. apply andb_prop in H as [Hev Hevs].
      rewrite IHh by exact Hevs. now apply step_keeps_history.
Qed.

Lemma run_frame_witness :
  perspective
    (run (Some canvas_at_origin) initial
         [MouseDown (num 50) (num 50); ClickUndo; ClickClear])
  = perspective initial
  /\ strokeHistory
       (run (Some canvas_at_origin)
            {| perspective := (num 0, num 0);
               strokeHistory := [(num 50, num 50)] |}
            [Change "perspectiveX" (num 10); ClickSave (num 0)])
     = [(num 50, num 50)].
Proof.
  split.
  - exact (proj1 (run_frame (Some canvas_at_origin)
             [MouseDown (num 50) (num 50); ClickUndo; ClickClear] initial)
             eq_refl).
  - exact (proj2 (run_frame (Some canvas_at_origin)
             [Change "perspectiveX" (num 10); ClickSave (num 0)]
             {| perspective := (num 0, num 0);
                strokeHistory := [(num 50, num 50)] |})
             eq_refl).
Defined.

Lemma step_history_cases (canvasRef : CanvasRef) (st : State) (ev : Event) :
  strokeHistory (next (step canvasRef st ev)) = strokeHistory st
  \/ strokeHistory (next (step canvasRef st ev)) = removelast (strokeHistory st)
  \/ strokeHistory (next (step canvasRef st ev)) = []
  \/ (is_add ev = true
      /\ exists canvas,
           canvasRef = Some canvas
           /\ ((exists cx cy, ev = MouseDown cx cy
                  /\ strokeHistory (next (step canvasRef st ev))
                     = strokeHistory st
                       ++ [added_point canvas (Pointer cx cy)])
               \/ (exists rx ry, ev = ClickRandom rx ry
                     /\ strokeHistory (next (step canvasRef st ev))
                        = strokeHistory st
                          ++ [added_point canvas (Random rx ry)]))).
Proof.
  destruct (context_ready canvasRef) eqn:Hm.
  - destruct (context_ready_inv canvasRef Hm) as (canvas & -> & Hctx).
    rewrite step_ready by exact Hctx.
    destruct ev as [name value|cx cy| |rx ry|r|]; cbn [strokeHistory]; auto.
    + right. right. right. split; [reflexivity|]. exists canvas.
      split; [reflexivity|]. left. now exists cx, cy.
    + right. right. right. split; [reflexivity|]. exists canvas.
      split; [reflexivity|]. right. now exists rx, ry.
  - left. rewrite step_missing by exact Hm. destruct ev; reflexivity.
Qed.

Lemma removelast_length_le {A : Type} (l : list A) :
  (List.length (removelast l) <= List.length l)%nat.
Proof.
  rewrite removelast_firstn_len, length_firstn. lia.
Qed.

(** X11: no event adds more than one point, and only pointer presses and
    random points add one: after any run, whatever the canvas reference,
    the history is at most as long as before plus the number of Add-Point
    events of the run. *)
Theorem history_growth_bounded :
  forall (canvasRef : CanvasRef) (evs : list Event) (st : State),
    (List.length (strokeHistory (run canvasRef st evs))
     <= List.length (strokeHistory st) + List.length (filter is_add evs))%nat.
Proof.
  intros canvasRef evs. induction evs as [|ev evs IH]; intros st.
  - cbn. lia.
  - rewrite run_cons. specialize (IH (next (step canvasRef st ev))).
    cbn [filter].
    assert (H1 : (List.length (strokeHistory (next (step canvasRef st ev)))
                  <= List.length (strokeHistory st)
                     + (if is_add ev then 1 else 0))%nat).
    { destruct (step_history_cases canvasRef st ev)
        as [H|[H|[H|(Hadd & canvas & _ & [(cx & cy & _ & H)|(rx & ry & _ & H)])]]];
        rewrite H; try rewrite Hadd; try rewrite length_app; cbn [List.length];
        try lia.
      pose proof (removelast_length_le (strokeHistory st)). lia. }
    destruct (is_add ev); cbn [List.length]; lia.
Qed.

(** ** Random points stay inside the canvas *)

Lemma Forall_removelast {A : Type} (P : A -> Prop) (l : list A) :
  Forall P l -> Forall P (removelast l).
Proof.
  induction 1 as [|a l Ha Hl IH]; [constructor|].
  cbn [removelast]. destruct l; [constructor|].
  constructor; assumption.
Qed.

Lemma random_point_in_canvas_bits (canvas : HTMLCanvasElement)
    (rx ry : number) :
  JS.is_random rx = true -> JS.is_random ry = true ->
  in_canvas (added_point canvas (Random rx ry)).
Proof.
  intros Hrx Hry. split; cbn [added_point fst snd].
  - rewrite CANVAS_WIDTH_bits.
    apply floor_mul_random; [lia|reflexivity|exact Hrx].
  - rewrite CANVAS_HEIGHT_bits.
    apply floor_mul_random; [lia|reflexivity|exact Hry].
Qed.

(** X12: a history whose points are integer points of the canvas stays so
    under every run without pointer presses: random points (for draws
    Math.random() may return), undos, clears, slider changes and exports
    never put a point outside [0, 800) x [0, 600) into the history,
    whatever the canvas reference. *)
Theorem random_history_in_canvas :
  forall (canvasRef : CanvasRef) (evs : list Event) (st : State),
    Forall in_canvas (strokeHistory st) ->
    Forall random_only evs ->
    Forall in_canvas (strokeHistory (run canvasRef st evs)).
Proof.
  intros canvasRef evs. induction evs as [|ev evs IH]; intros st Hst Hevs.
  - exact Hst.
  - rewrite run_cons. inversion Hevs as [|ev' evs' Hev Hevs']; subst.
    apply IH; [|exact Hevs'].
    destruct (step_history_cases canvasRef st ev)
      as [H|[H|[H|(_ & canvas & _ & [(cx & cy & -> & H)|(rx & ry & -> & H)])]]];
      rewrite H.
    + exact Hst.
    + now apply Forall_removelast.
    + constructor.
    + contradiction Hev.
    + apply Forall_app. split; [exact Hst|].
      constructor; [|constructor].
      destruct Hev as [Hrx Hry]. now apply random_point_in_canvas_bits.
Qed.

Lemma random_history_in_canvas_witness :
  Forall in_canvas
    (strokeHistory
       (run (Some canvas_at_origin) initial
            [ClickRandom below_one (num 0); ClickUndo;
             ClickRandom (num 0) below_one])).
Proof.
  apply random_history_in_canvas.
  - constructor.
  - repeat constructor; vm_compute; reflexivity.
Defined.

